(** * Model registry and audit trail of the model-audit toolkit

    A shallow embedding of [src/core/model_registry.py]: the metadata
    record, the in-memory index of the registry with [register],
    [get_production_model] and [promote_to_production], and the audit
    trail with [log_action] and [get_logs].

    Python objects that are mutated in place (the records held in
    [self.models], the list [self.logs]) are modelled by explicit state
    passing.  Exceptions are modelled by a result type, and the body of
    every method runs in a state-and-exception monad in which a raised
    exception keeps the state reached so far, as in Python.  The outcome of
    every call into the operating system or into a library (clock, file
    system, pickle, json) is supplied by an environment record. *)

From stdpp Require Import gmap strings list fin_maps pretty sorting.

Open Scope string_scope.
Open Scope list_scope.
Open Scope nat_scope.

(** ** Python values, exceptions, and the method monad *)

(** Values of type [Any] that the registry stores without looking inside:
    [None], a [str], or any other object (a dict of metrics, a number),
    identified by a tag. *)
Inductive value :=
  | VNone
  | VStr (s : string)
  | VOther (tag : N).

#[global] Instance value_eq_dec : EqDecision value.
Proof. solve_decision. Defined.

(** The exceptions the modelled code can meet; all of them are subclasses
    of [Exception], so [except Exception] catches each one. *)
Inductive exn :=
  | OSError
  | PicklingError
  | TypeError
  | AttributeError.

Inductive result (A : Type) :=
  | Ok (a : A)
  | Raise (e : exn).
Arguments Ok {A} a.
Arguments Raise {A} e.

Definition is_Ok {A} (r : result A) : bool :=
  match r with Ok _ => true | Raise _ => false end.

(** A method body over an object of state [S]: it returns or raises, and
    leaves a state either way. *)
Definition M (S A : Type) : Type := S → result A * S.

Definition ret {S A} (a : A) : M S A := λ s, (Ok a, s).
Definition raise {S A} (e : exn) : M S A := λ s, (Raise e, s).
Definition bind {S A B} (m : M S A) (k : A → M S B) : M S B :=
  λ s, match m s with
       | (Ok a, s') => k a s'
       | (Raise e, s') => (Raise e, s')
       end.
Definition get {S} : M S S := λ s, (Ok s, s).
Definition modify {S} (f : S → S) : M S unit := λ s, (Ok tt, f s).
(** A call whose outcome is already known: a pure computation that may
    raise, or an effect on the outside world decided by the environment. *)
Definition lift {S A} (r : result A) : M S A := λ s, (r, s).
(** [try: body except Exception as e: handler e] *)
Definition try_except {S A} (body : M S A) (handler : exn → M S A) : M S A :=
  λ s, match body s with
       | (Ok a, s') => (Ok a, s')
       | (Raise e, s') => handler e s'
       end.
(** An I/O step that returns nothing: it succeeds or raises. *)
Definition io_step {S} (outcome : option exn) : M S unit :=
  match outcome with
  | None => ret tt
  | Some e => raise e
  end.

#[global] Instance M_ret {S} : MRet (M S) := λ A, ret.
#[global] Instance M_bind {S} : MBind (M S) := λ A B k m, bind m k.

(** [f"v{n}.0"] *)
Definition version_tag_of (n : nat) : string := "v" +:+ pretty n +:+ ".0".


(** The content of a [bytes] object. *)
Definition bytes : Type := list Byte.byte.

(** ** The model registry *)

Module Registry.

(** [ModelMetadata].  The dataclass does not check its annotations, so the
    fields that [register] fills from the caller's [metadata] dict hold
    whatever value the dict held. *)
Record ModelMetadata := {
  name : string;
  version : string;
  model_type : string;
  domain : value;
  created_date : string;
  created_by : string;
  approval_date : value;
  approved_by : value;
  status : value;
  performance_metrics : value;
  validation_report : option string;
  data_sha256 : option string;
  model_sha256 : option string
}.

#[global] Instance ModelMetadata_eq_dec : EqDecision ModelMetadata.
Proof. solve_decision. Defined.

(** [vm.status = s] *)
Definition set_status (s : value) (vm : ModelMetadata) : ModelMetadata :=
  {| name := name vm; version := version vm; model_type := model_type vm;
     domain := domain vm; created_date := created_date vm;
     created_by := created_by vm; approval_date := approval_date vm;
     approved_by := approved_by vm; status := s;
     performance_metrics := performance_metrics vm;
     validation_report := validation_report vm;
     data_sha256 := data_sha256 vm; model_sha256 := model_sha256 vm |}.

(** [vm.approved_by = who; vm.approval_date = when] *)
Definition set_approval (who when : value) (vm : ModelMetadata) : ModelMetadata :=
  {| name := name vm; version := version vm; model_type := model_type vm;
     domain := domain vm; created_date := created_date vm;
     created_by := created_by vm; approval_date := when;
     approved_by := who; status := status vm;
     performance_metrics := performance_metrics vm;
     validation_report := validation_report vm;
     data_sha256 := data_sha256 vm; model_sha256 := model_sha256 vm |}.

(** The attributes of a [ModelRegistry] object.  [storage_path] is set by
    the constructor exactly when [backend == 'filesystem'], so it is not a
    field of its own. *)
Record ModelRegistry := {
  backend : string;
  uri : string;
  models : gmap string (list ModelMetadata)
}.

Definition set_models (m : gmap string (list ModelMetadata))
    (self : ModelRegistry) : ModelRegistry :=
  {| backend := backend self; uri := uri self; models := m |}.

(** [ModelRegistry(backend, uri)] over an empty storage directory. *)
Definition init (backend uri : string) : ModelRegistry :=
  {| backend := backend; uri := uri; models := ∅ |}.

(** What the outside world answers during one call of a method. *)
Record Env := {
  (** [datetime.now().isoformat()] *)
  now : string;
  (** [model_dir.mkdir(parents=True, exist_ok=True)] *)
  mkdir_outcome : option exn;
  (** opening [model.pkl] and writing the pickled model *)
  model_pkl_outcome : option exn;
  (** opening [metadata.json] and [json.dump] of the record *)
  metadata_json_outcome : option exn
}.

(** [x if metadata else dflt], where [x] is [metadata.get(key, dflt)]:
    [None] and the empty dict are both falsy. *)
Definition metadata_get (metadata : option (gmap string value))
    (key : string) (dflt : value) : value :=
  match metadata with
  | Some d => if bool_decide (d = ∅) then dflt else default dflt (d !! key)
  | None => dflt
  end.

Section Methods.

(** The registered object, [pickle.dumps] and [hashlib.sha256(_).hexdigest()]
    belong to the caller and to the Python library. *)
Context {Artifact : Type}.
Context (pickle_dumps : Artifact → result bytes).
Context (sha256_hexdigest : bytes → string).

(** [ModelRegistry._calculate_sha256] *)
Definition _calculate_sha256 (obj : Artifact) : result string :=
  match pickle_dumps obj with
  | Ok serialized => Ok (sha256_hexdigest serialized)
  | Raise e => Raise e
  end.

(** [ModelRegistry._save_model_filesystem] *)
Definition _save_model_filesystem (env : Env) (name version : string)
    (model : Artifact) (metadata : ModelMetadata) : M ModelRegistry unit :=
  io_step (mkdir_outcome env);;
  _ ← lift (pickle_dumps model);
  io_step (model_pkl_outcome env);;
  io_step (metadata_json_outcome env).

(** [ModelRegistry._save_model_mlflow], whose body is [pass] *)
Definition _save_model_mlflow (name version : string)
    (model : Artifact) (metadata : ModelMetadata) : M ModelRegistry unit :=
  mret tt.

(** [ModelRegistry.register] *)
Definition register (env : Env) (name : string) (model : Artifact)
    (model_type created_by : string)
    (metadata : option (gmap string value)) : M ModelRegistry ModelMetadata :=
  try_except
    (self ← get;
     let current_version := length (default [] (models self !! name)) + 1 in
     let version_tag := version_tag_of current_version in
     model_sha ← lift (_calculate_sha256 model);
     let model_meta :=
       {| name := name;
          version := version_tag;
          model_type := model_type;
          domain := metadata_get metadata "domain" (VStr "general");
          created_date := now env;
          created_by := created_by;
          approval_date := metadata_get metadata "approval_date" VNone;
          approved_by := metadata_get metadata "approved_by" VNone;
          status := metadata_get metadata "status" (VStr "development");
          performance_metrics :=
            metadata_get metadata "performance_metrics" VNone;
          validation_report := None;
          data_sha256 := None;
          model_sha256 := Some model_sha |} in
     (if decide (backend self = "filesystem")
      then _save_model_filesystem env name version_tag model model_meta
      else if decide (backend self = "mlflow")
      then _save_model_mlflow name version_tag model model_meta
      else mret tt);;
     modify (λ self,
       match models self !! name with
       | None => set_models (<[name := []]> (models self)) self
       | Some _ => self
       end);;
     modify (λ self,
       set_models (alter (λ l, l ++ [model_meta]) name (models self)) self);;
     mret model_meta)
    (λ e, raise e).

(** [max(iterable, key=key)] on a non-empty iterable whose first item is
    [best]: a later item replaces the running maximum only when its key is
    strictly greater.  Keys are [str], compared as Python compares them. *)
Fixpoint max_from {A} (key : A → string) (best : A) (rest : list A) : A :=
  match rest with
  | [] => best
  | x :: rest' =>
      if String.ltb (key best) (key x) then max_from key x rest'
      else max_from key best rest'
  end.

(** [ModelRegistry._load_model]: [fs name version] is what opening and
    unpickling [storage_path/name/version/model.pkl] gives.  An object built
    for another backend has no [storage_path] attribute. *)
Definition _load_model (fs : string → string → result Artifact)
    (name version : string) : M ModelRegistry Artifact :=
  self ← get;
  if decide (backend self = "filesystem") then lift (fs name version)
  else raise AttributeError.

(** [[v for v in versions if v.status == 'production']] *)
Definition prod_versions (versions : list ModelMetadata) : list ModelMetadata :=
  filter (λ v, status v = VStr "production") versions.

(** [ModelRegistry.get_production_model]; [None] of Python is [None]. *)
Definition get_production_model (fs : string → string → result Artifact)
    (name : string) : M ModelRegistry (option (ModelMetadata * Artifact)) :=
  self ← get;
  match models self !! name with
  | None => mret None
  | Some versions =>
      match prod_versions versions with
      | [] => mret None
      | first :: rest =>
          let latest := max_from created_date first rest in
          model ← _load_model fs name (version latest);
          mret (Some (latest, model))
      end
  end.

(** The first loop of [promote_to_production]: the position of the first
    record that carries [version]. *)
Definition find_version (version0 : string) (versions : list ModelMetadata)
    : option nat :=
  fst <$> list_find (λ vm, version vm = version0) versions.

(** The body of the second loop. *)
Definition demote (vm : ModelMetadata) : ModelMetadata :=
  if decide (status vm = VStr "production") then set_status (VStr "staging") vm
  else vm.

(** The three assignments to [version_meta]. *)
Definition promote (approved_by when : string) (vm : ModelMetadata)
    : ModelMetadata :=
  set_approval (VStr approved_by) (VStr when) (set_status (VStr "production") vm).

(** [ModelRegistry.promote_to_production] *)
Definition promote_to_production (env : Env)
    (name version approved_by approval_notes : string) : M ModelRegistry bool :=
  try_except
    (self ← get;
     match models self !! name with
     | None => mret false
     | Some versions =>
         match find_version version versions with
         | None => mret false
         | Some i =>
             modify (λ self,
               set_models (alter (fmap demote) name (models self)) self);;
             modify (λ self,
               set_models
                 (alter (alter (promote approved_by (now env)) i) name
                    (models self)) self);;
             mret true
         end
     end)
    (λ e, mret false).

(** [[v for v in self.models[name] if v.version == version]] *)
Definition versions_matching (version0 : string)
    (versions : list ModelMetadata) : list ModelMetadata :=
  filter (λ v, version v = version0) versions.

(** [ModelRegistry.get_model_version] *)
Definition get_model_version (fs : string → string → result Artifact)
    (name version : string) : M ModelRegistry (option (ModelMetadata * Artifact)) :=
  self ← get;
  match models self !! name with
  | None => mret None
  | Some versions =>
      match versions_matching version versions with
      | [] => mret None
      | first :: _ =>
          model ← _load_model fs name version;
          mret (Some (first, model))
      end
  end.

End Methods.

(** *** Runs of calls and the properties stated about them *)

(** One call of [promote_to_production], with the clock reading it meets. *)
Record PromoteCall := {
  pc_env : Env;
  pc_name : string;
  pc_version : string;
  pc_approved_by : string;
  pc_approval_notes : string
}.

Definition run_promote (c : PromoteCall) : M ModelRegistry bool :=
  promote_to_production (pc_env c) (pc_name c) (pc_version c)
    (pc_approved_by c) (pc_approval_notes c).

(** The registry after a sequence of [promote_to_production] calls. *)
Definition promote_all (calls : list PromoteCall) (self : ModelRegistry)
    : ModelRegistry :=
  foldl (λ self c, (run_promote c self).2) self calls.

(** The number of records of one name whose status is ['production']. *)
Definition production_count (versions : list ModelMetadata) : nat :=
  length (prod_versions versions).

(** At most one record per name is in production. *)
Definition single_production (self : ModelRegistry) : Prop :=
  map_Forall (λ _ versions, production_count versions ≤ 1) (models self).

#[global] Instance single_production_dec self : Decision (single_production self).
Proof. unfold single_production. apply _. Defined.

(** The record at position [i] of the sequence stored under [name]. *)
Definition record_at (self : ModelRegistry) (name : string) (i : nat)
    : option ModelMetadata :=
  models self !! name ≫= (λ versions, versions !! i).

(** The records stored under [name]; none when the name is unknown. *)
Definition records_of (self : ModelRegistry) (name : string)
    : list ModelMetadata :=
  default [] (models self !! name).

(** Two records that agree on every field but [status]. *)
Definition same_but_status (a b : ModelMetadata) : Prop :=
  set_status (status a) b = a.

(** Two records that agree on every field but [status], [approved_by] and
    [approval_date]. *)
Definition same_but_approval (a b : ModelMetadata) : Prop :=
  set_approval (approved_by a) (approval_date a) (set_status (status a) b) = a.

(** The order of [str]: Python compares strings by code point, which on
    UTF-8 encoded text is the order of the bytes. *)
Definition str_lt (a b : string) : Prop := String.ltb a b = true.
Definition str_le (a b : string) : Prop := String.ltb b a = false.

(** [r] has the latest [created_date] of [l]; of several records with that
    date it is the one registered first. *)
Definition latest_first_wins (l : list ModelMetadata) (r : ModelMetadata)
    : Prop :=
  ∃ i, l !! i = Some r ∧
    (∀ j x, l !! j = Some x → str_le (created_date x) (created_date r)) ∧
    (∀ j x, l !! j = Some x → j < i → str_lt (created_date x) (created_date r)).

(** [r] has the latest [created_date] of [l]; of several records with that
    date it is the one registered last. *)
Definition latest_last_wins (l : list ModelMetadata) (r : ModelMetadata)
    : Prop :=
  ∃ i, l !! i = Some r ∧
    (∀ j x, l !! j = Some x → str_le (created_date x) (created_date r)) ∧
    (∀ j x, l !! j = Some x → i < j → str_lt (created_date x) (created_date r)).

Section Runs.

Context {Artifact : Type}.
Context (pickle_dumps : Artifact → result bytes).
Context (sha256_hexdigest : bytes → string).

(** The record that [register] builds for the [n]-th version of [name],
    given the digest of the model. *)
Definition new_record (env : Env) (name : string) (n : nat)
    (model_type created_by : string) (metadata : option (gmap string value))
    (model_sha : string) : ModelMetadata :=
  {| name := name;
     version := version_tag_of n;
     model_type := model_type;
     domain := metadata_get metadata "domain" (VStr "general");
     created_date := now env;
     created_by := created_by;
     approval_date := metadata_get metadata "approval_date" VNone;
     approved_by := metadata_get metadata "approved_by" VNone;
     status := metadata_get metadata "status" (VStr "development");
     performance_metrics := metadata_get metadata "performance_metrics" VNone;
     validation_report := None;
     data_sha256 := None;
     model_sha256 := Some model_sha |}.

(** The first step of the durable write that fails, if one does; only the
    filesystem backend writes. *)
Definition write_failure (env : Env) (self : ModelRegistry) : option exn :=
  if decide (backend self = "filesystem") then
    match mkdir_outcome env, model_pkl_outcome env with
    | Some e, _ => Some e
    | None, Some e => Some e
    | None, None => metadata_json_outcome env
    end
  else None.

(** Persistence fails during a call of [register]: the model cannot be
    serialized for hashing, or a step of the durable write fails. *)
Definition persistence_fails (env : Env) (self : ModelRegistry)
    (model : Artifact) : Prop :=
  (∃ e, pickle_dumps model = Raise e) ∨ (∃ e, write_failure env self = Some e).

(** One call of [register] under a name fixed elsewhere, with what the
    outside world answers during it. *)
Record RegisterCall := {
  rc_env : Env;
  rc_model : Artifact;
  rc_model_type : string;
  rc_created_by : string;
  rc_metadata : option (gmap string value)
}.

Definition run_register (name : string) (c : RegisterCall)
    : M ModelRegistry ModelMetadata :=
  register pickle_dumps sha256_hexdigest (rc_env c) name (rc_model c)
    (rc_model_type c) (rc_created_by c) (rc_metadata c).

(** A sequence of [register] calls under one name: what each call gave, in
    call order, and the registry after the last one. *)
Fixpoint register_all (name : string) (calls : list RegisterCall)
    (self : ModelRegistry) : list (result ModelMetadata) * ModelRegistry :=
  match calls with
  | [] => ([], self)
  | c :: calls' =>
      let '(r, self') := run_register name c self in
      let '(rs, self'') := register_all name calls' self' in
      (r :: rs, self'')
  end.

(** A call of one of the two methods that change the registry. *)
Inductive Call :=
  | CallRegister (name : string) (c : RegisterCall)
  | CallPromote (c : PromoteCall).

(** The registry after one call, whatever the call returned or raised. *)
Definition run_call (c : Call) (self : ModelRegistry) : ModelRegistry :=
  match c with
  | CallRegister name c => (run_register name c self).2
  | CallPromote c => (run_promote c self).2
  end.

(** The registry after a sequence of calls. *)
Definition run_calls (calls : list Call) (self : ModelRegistry)
    : ModelRegistry :=
  foldl (λ self c, run_call c self) self calls.

(** The status that a call of [register] gives to its record. *)
Definition requested_status (c : Call) : option value :=
  match c with
  | CallRegister _ c =>
      Some (metadata_get (rc_metadata c) "status" (VStr "development"))
  | CallPromote _ => None
  end.

End Runs.

(** [ModelRegistry.list_models].  [keys] is the order in which the dict
    [self.models] yields its keys, which the finite map does not record. *)
Definition list_models (self : ModelRegistry) (keys : list string)
    (filters : option (gmap string string)) : list ModelMetadata :=
  let all_models := keys ≫= records_of self in
  match filters with
  | None => all_models
  | Some f =>
      if decide (f = ∅) then all_models
      else
        let filtered := all_models in
        let filtered :=
          match f !! "domain" with
          | Some d => filter (λ m, domain m = VStr d) filtered
          | None => filtered
          end in
        let filtered :=
          match f !! "status" with
          | Some st => filter (λ m, status m = VStr st) filtered
          | None => filtered
          end in
        filtered
  end.

(** The numbering of one sequence: its records carry the tags [v1.0],
    [v2.0], ... in order, and the name they are stored under. *)
Definition numbered (name0 : string) (versions : list ModelMetadata) : Prop :=
  version <$> versions = version_tag_of <$> seq 1 (length versions) ∧
  Forall (λ vm, name vm = name0) versions.

(** Every sequence of the registry is numbered. *)
Definition well_numbered (self : ModelRegistry) : Prop :=
  map_Forall numbered (models self).

#[global] Instance well_numbered_dec self : Decision (well_numbered self).
Proof. unfold well_numbered, numbered. apply _. Defined.

(** [isinstance(v, str)] *)
Definition is_str (v : value) : Prop :=
  match v with VStr _ => True | _ => False end.

#[global] Instance is_str_dec v : Decision (is_str v).
Proof. destruct v; simpl; apply _. Defined.

(** A record is in development, or it is in production or in staging and
    names its approver and the time of approval. *)
Definition approved (vm : ModelMetadata) : Prop :=
  status vm = VStr "development" ∨
  ((status vm = VStr "production" ∨ status vm = VStr "staging") ∧
   is_str (approved_by vm) ∧ is_str (approval_date vm)).

#[global] Instance approved_dec vm : Decision (approved vm).
Proof. unfold approved. apply _. Defined.

Definition all_approved (self : ModelRegistry) : Prop :=
  map_Forall (λ _ versions, Forall approved versions) (models self).

#[global] Instance all_approved_dec self : Decision (all_approved self).
Proof. unfold all_approved. apply _. Defined.

(** A record with the fields that [promote_to_production] assigns blanked:
    what is left is fixed at registration. *)
Definition registered_part (vm : ModelMetadata) : ModelMetadata :=
  set_approval VNone VNone (set_status VNone vm).

(** *** The storage directory at start-up *)

(** A child of a model directory.  [ve_metadata] is [None] when the child
    holds no [metadata.json], and otherwise what opening the file, parsing
    it and building the record give. *)
Record VersionEntry := {
  ve_name : string;
  ve_is_dir : bool;
  ve_metadata : option (result ModelMetadata)
}.

(** A child of the storage directory, with what iterating over it gives. *)
Record ModelEntry := {
  me_name : string;
  me_is_dir : bool;
  me_children : result (list VersionEntry)
}.

(** What the file system answers to the constructor. *)
Record Storage := {
  (** [self.storage_path.mkdir(parents=True, exist_ok=True)] *)
  st_mkdir_outcome : option exn;
  (** [self.storage_path.iterdir()], in the order of the iteration *)
  st_listing : result (list ModelEntry)
}.

(** [for x in l: body x] *)
Fixpoint for_each {S A} (body : A → M S unit) (l : list A) : M S unit :=
  match l with
  | [] => mret tt
  | x :: l' => body x;; for_each body l'
  end.

(** The body of the inner loop of [_load_registry]. *)
Definition load_version (dir_name : string) (version_dir : VersionEntry)
    : M ModelRegistry unit :=
  if ve_is_dir version_dir then
    match ve_metadata version_dir with
    | Some read =>
        meta ← lift read;
        modify (λ self,
          match models self !! dir_name with
          | None => set_models (<[dir_name := []]> (models self)) self
          | Some _ => self
          end);;
        modify (λ self,
          set_models (alter (λ l, l ++ [meta]) dir_name (models self)) self)
    | None => mret tt
    end
  else mret tt.

(** The body of the outer loop of [_load_registry]. *)
Definition load_model_dir (model_dir : ModelEntry) : M ModelRegistry unit :=
  if me_is_dir model_dir then
    children ← lift (me_children model_dir);
    for_each (load_version (me_name model_dir)) children
  else mret tt.

(** [ModelRegistry._load_registry] *)
Definition _load_registry (disk : Storage) : M ModelRegistry unit :=
  entries ← lift (st_listing disk);
  for_each load_model_dir entries.

(** [ModelRegistry.__init__]: the object, unless the constructor raises. *)
Definition __init__ (disk : Storage) (backend uri : string)
    : result ModelRegistry :=
  let self := {| backend := backend; uri := uri; models := ∅ |} in
  if decide (backend = "filesystem") then
    match (io_step (st_mkdir_outcome disk);; _load_registry disk) self with
    | (Ok _, self') => Ok self'
    | (Raise e, _) => Raise e
    end
  else Ok self.

(** The records that the loops file under [dir_name], in the order in which
    they meet them, when every read succeeds. *)
Definition readable_records (version_dirs : list VersionEntry)
    : list ModelMetadata :=
  version_dirs ≫= (λ v,
    if ve_is_dir v then
      match ve_metadata v with
      | Some (Ok meta) => [meta]
      | _ => []
      end
    else []).

Definition stored_records (entries : list ModelEntry) (dir_name : string)
    : list ModelMetadata :=
  entries ≫= (λ m,
    if me_is_dir m then
      if decide (me_name m = dir_name) then
        match me_children m with
        | Ok children => readable_records children
        | Raise _ => []
        end
      else []
    else []).

(** Every directory can be listed and every [metadata.json] read. *)
Definition readable_version (v : VersionEntry) : Prop :=
  ve_is_dir v = true → ∀ e, ve_metadata v ≠ Some (Raise e).
Definition readable (entries : list ModelEntry) : Prop :=
  Forall (λ m, me_is_dir m = true →
    ∃ children, me_children m = Ok children ∧ Forall readable_version children)
    entries.

End Registry.

(** ** The audit trail *)

Module Audit.

(** The dict built by [log_action]. *)
Record LogEntry := {
  timestamp : string;
  action : string;
  model_id : string;
  actor : string;
  details : gmap string value;
  status : string
}.

(** The attributes of an [AuditTrail] object. *)
Record AuditTrail := {
  storage : string;
  path : string;
  logs : list LogEntry
}.

Definition set_logs (l : list LogEntry) (self : AuditTrail) : AuditTrail :=
  {| storage := storage self; path := path self; logs := l |}.

(** What the outside world answers during one call of [log_action]. *)
Record Env := {
  (** [datetime.now().isoformat()] *)
  now : string;
  (** [datetime.now().strftime('%Y-%m-%d')] *)
  today : string;
  (** opening the given log file for appending *)
  open_outcome : string → option exn;
  (** [json.dumps(log_entry)] *)
  json_dumps_outcome : option exn;
  (** writing the line and closing the file *)
  write_outcome : option exn
}.

(** [AuditTrail._save_log_filesystem] *)
Definition _save_log_filesystem (env : Env) (log_entry : LogEntry)
    : M AuditTrail unit :=
  self ← get;
  let log_file := path self +:+ "/audit_" +:+ today env +:+ ".jsonl" in
  io_step (open_outcome env log_file);;
  io_step (json_dumps_outcome env);;
  io_step (write_outcome env).

(** [AuditTrail.log_action] *)
Definition log_action (env : Env) (action model_id actor : string)
    (details : gmap string value) (status : string) : M AuditTrail bool :=
  try_except
    (let log_entry :=
       {| timestamp := now env; action := action; model_id := model_id;
          actor := actor; details := details; status := status |} in
     modify (λ self, set_logs (logs self ++ [log_entry]) self);;
     self ← get;
     (if decide (storage self = "filesystem")
      then _save_log_filesystem env log_entry
      else mret tt);;
     mret true)
    (λ e, mret false).

(** [if x:] for an optional [str] argument: [None] and [''] are falsy. *)
Definition given (x : option string) : option string :=
  match x with
  | Some s => if decide (s = "") then None else Some s
  | None => None
  end.

(** [AuditTrail.get_logs]; it reads [self.logs] and changes nothing. *)
Definition get_logs (self : AuditTrail) (model_id action : option string)
    (days_back : Z) : list LogEntry :=
  let filtered := logs self in
  let filtered :=
    match given model_id with
    | Some m => filter (λ l, Audit.model_id l = m) filtered
    | None => filtered
    end in
  let filtered :=
    match given action with
    | Some a => filter (λ l, Audit.action l = a) filtered
    | None => filtered
    end in
  filtered.

(** The dict that [log_action] builds from its arguments. *)
Definition log_entry_of (env : Env) (action model_id actor : string)
    (details : gmap string value) (status : string) : LogEntry :=
  {| timestamp := now env; action := action; model_id := model_id;
     actor := actor; details := details; status := status |}.

(** The first step of the durable append that fails, if one does; only the
    filesystem storage writes. *)
Definition write_failure (env : Env) (self : AuditTrail) : option exn :=
  if decide (storage self = "filesystem") then
    match open_outcome env (path self +:+ "/audit_" +:+ today env +:+ ".jsonl"),
          json_dumps_outcome env with
    | Some e, _ => Some e
    | None, Some e => Some e
    | None, None => write_outcome env
    end
  else None.

(** One call of [log_action]. *)
Record LogCall := {
  lc_env : Env;
  lc_action : string;
  lc_model_id : string;
  lc_actor : string;
  lc_details : gmap string value;
  lc_status : string
}.

Definition run_log (c : LogCall) : M AuditTrail bool :=
  log_action (lc_env c) (lc_action c) (lc_model_id c) (lc_actor c)
    (lc_details c) (lc_status c).

Definition entry_of (c : LogCall) : LogEntry :=
  log_entry_of (lc_env c) (lc_action c) (lc_model_id c) (lc_actor c)
    (lc_details c) (lc_status c).

(** The trail after a sequence of [log_action] calls. *)
Definition log_all (calls : list LogCall) (self : AuditTrail) : AuditTrail :=
  foldl (λ self c, (run_log c self).2) self calls.

End Audit.

(** ** Date validation of the ingestion pipeline *)

Module Ingest.

(** The [date] column of a frame: [datetime.date] values, each given by its
    proleptic ordinal. *)
Definition DateColumn : Type := list Z.

(** [Series.duplicated()]: an item is marked when an equal item precedes it.
    [seen] holds the items already met. *)
Fixpoint duplicated_from (seen : list Z) (col : DateColumn) : list bool :=
  match col with
  | [] => []
  | d :: col' =>
      bool_decide (d ∈ seen) :: duplicated_from (d :: seen) col'
  end.
Definition duplicated (col : DateColumn) : list bool := duplicated_from [] col.

(** [Series.any()] and [Series.sum()] of a boolean series. *)
Definition any (marks : list bool) : bool := existsb id marks.
Definition sum (marks : list bool) : nat := length (filter (λ b, b = true) marks).

(** [Series.is_monotonic_increasing]: no item is smaller than the one
    before it. *)
Fixpoint is_monotonic_increasing (col : DateColumn) : bool :=
  match col with
  | [] => true
  | d :: col' =>
      match col' with
      | [] => true
      | d' :: _ => bool_decide (d ≤ d')%Z && is_monotonic_increasing col'
      end
  end.

(** [DataValidator.validate_dates]; [today] is [datetime.now().date()]. *)
Definition validate_dates (today : Z) (col : DateColumn) : bool * list string :=
  let issues := [] in
  let issues :=
    if any (duplicated col)
    then issues ++ [pretty (sum (duplicated col)) +:+ " duplicate dates"]
    else issues in
  let issues :=
    if negb (is_monotonic_increasing col)
    then issues ++ ["Dates not in ascending order"]
    else issues in
  let issues :=
    if any ((λ d, bool_decide (today < d)%Z) <$> col)
    then issues ++ ["Future dates detected"]
    else issues in
  (bool_decide (length issues = 0), issues).

End Ingest.

(** ** Sample data for the examples *)

Module Sample.
Import Registry.

(** A call during which the file system works, at clock reading [t]. *)
Definition env_at (t : string) : Env :=
  {| now := t; mkdir_outcome := None; model_pkl_outcome := None;
     metadata_json_outcome := None |}.

(** A call during which writing [metadata.json] fails. *)
Definition env_disk_full (t : string) : Env :=
  {| now := t; mkdir_outcome := None; model_pkl_outcome := None;
     metadata_json_outcome := Some OSError |}.

Definition record (ver created : string) (st : value) : ModelMetadata :=
  {| name := "credit_scoring"; version := ver; model_type := "classifier";
     domain := VStr "credit"; created_date := created; created_by := "alice";
     approval_date := VNone; approved_by := VNone; status := st;
     performance_metrics := VNone; validation_report := None;
     data_sha256 := None; model_sha256 := None |}.

Definition v1 : ModelMetadata :=
  record "v1.0" "2024-01-01T09:00:00" (VStr "production").
Definition v2 : ModelMetadata :=
  record "v2.0" "2024-02-01T09:00:00" (VStr "development").

(** A registry holding two versions of one model, the first in production. *)
Definition registry : ModelRegistry :=
  {| backend := "filesystem"; uri := "models/";
     models := {[ "credit_scoring" := [v1; v2] ]} |}.

Definition promote_v1 : PromoteCall :=
  {| pc_env := env_at "2024-04-01T09:00:00"; pc_name := "credit_scoring";
     pc_version := "v1.0"; pc_approved_by := "bob";
     pc_approval_notes := "rollback" |}.
Definition promote_v2 : PromoteCall :=
  {| pc_env := env_at "2024-03-01T09:00:00"; pc_name := "credit_scoring";
     pc_version := "v2.0"; pc_approved_by := "bob";
     pc_approval_notes := "upgrade" |}.

(** Artifacts that are strings, pickled to their bytes, and a stand-in for
    the digest. *)
Definition pickle_dumps (obj : string) : result bytes :=
  Ok (String.list_byte_of_string obj).
Definition digest (b : bytes) : string := pretty (length b).

(** Two registrations that ask for status ['production'] and meet the same
    clock reading. *)
Definition production_override : gmap string value :=
  {[ "status" := VStr "production" ]}.
Definition same_instant_calls : list (RegisterCall (Artifact:=string)) :=
  [ {| rc_env := env_at "2024-01-01T09:00:00"; rc_model := "A";
       rc_model_type := "classifier"; rc_created_by := "alice";
       rc_metadata := Some production_override |};
    {| rc_env := env_at "2024-01-01T09:00:00"; rc_model := "B";
       rc_model_type := "classifier"; rc_created_by := "alice";
       rc_metadata := Some production_override |} ].
Definition tie_registry : ModelRegistry :=
  (register_all pickle_dumps digest "credit_scoring" same_instant_calls
     (init "filesystem" "models/")).2.

(** A storage directory in which every [model.pkl] unpickles to its own
    version tag. *)
Definition fs (name version : string) : result string := Ok version.

(** An audit trail on disk, and a call of [log_action] during which the log
    directory cannot be written. *)
Definition trail : Audit.AuditTrail :=
  {| Audit.storage := "filesystem"; Audit.path := "audit_logs";
     Audit.logs := [] |}.
Definition audit_env_read_only : Audit.Env :=
  {| Audit.now := "2024-03-01T09:00:00"; Audit.today := "2024-03-01";
     Audit.open_outcome := λ _, Some OSError;
     Audit.json_dumps_outcome := None; Audit.write_outcome := None |}.

(** The same two records in an object built for the default backend. *)
Definition mlflow_registry : ModelRegistry :=
  {| backend := "mlflow"; uri := "mlruns/"; models := models registry |}.

(** A history of calls on a fresh registry: two versions of one model, a
    registration that fails on a full disk, a second model, and two
    promotions. *)
Definition registration (env : Env) (model : string)
    : RegisterCall (Artifact:=string) :=
  {| rc_env := env; rc_model := model; rc_model_type := "classifier";
     rc_created_by := "alice"; rc_metadata := None |}.
Definition history : list (Call (Artifact:=string)) :=
  [ CallRegister "credit_scoring" (registration (env_at "2024-01-01T09:00:00") "A");
    CallRegister "credit_scoring" (registration (env_disk_full "2024-01-15T09:00:00") "B");
    CallRegister "credit_scoring" (registration (env_at "2024-02-01T09:00:00") "B");
    CallPromote promote_v1;
    CallRegister "fraud" (registration (env_at "2024-02-15T09:00:00") "F");
    CallPromote promote_v2 ].

(** A storage directory after a clean-up and a failed registration: the
    directory of version 1 is gone, version 2 is complete, version 3 holds
    no [metadata.json]; two stray files lie beside the directories. *)
Definition storage : Storage :=
  {| st_mkdir_outcome := None;
     st_listing := Ok
       [ {| me_name := "README.md"; me_is_dir := false; me_children := Ok [] |};
         {| me_name := "credit_scoring"; me_is_dir := true;
            me_children := Ok
              [ {| ve_name := "notes.txt"; ve_is_dir := false;
                   ve_metadata := None |};
                {| ve_name := "v3.0"; ve_is_dir := true; ve_metadata := None |};
                {| ve_name := "v2.0"; ve_is_dir := true;
                   ve_metadata := Some (Ok v2) |} ] |} ] |}.

(** The registry that the constructor builds from it. *)
Definition restarted : ModelRegistry :=
  {| backend := "filesystem"; uri := "models/";
     models := {[ "credit_scoring" := [v2] ]} |}.

(** A history that ends with two records of one model in production: the
    second registration asks for that status.  Then a promotion of the
    other model. *)
Definition overridden_history : list (Call (Artifact:=string)) :=
  [ CallRegister "credit_scoring" (registration (env_at "2024-01-01T09:00:00") "A");
    CallPromote promote_v1;
    CallRegister "credit_scoring"
      {| rc_env := env_at "2024-02-01T09:00:00"; rc_model := "B";
         rc_model_type := "classifier"; rc_created_by := "alice";
         rc_metadata := Some production_override |};
    CallRegister "fraud" (registration (env_at "2024-02-15T09:00:00") "F") ].
Definition promote_fraud : PromoteCall :=
  {| pc_env := env_at "2024-05-01T09:00:00"; pc_name := "fraud";
     pc_version := "v1.0"; pc_approved_by := "bob";
     pc_approval_notes := "initial release" |}.

End Sample.

(** * Properties *)

Import Registry.

(** Unfolds the monad of method bodies. *)
Ltac run :=
  unfold try_except, mbind, M_bind, bind, mret, M_ret, ret, get, modify,
    lift, raise, io_step in *.

Example version_tag_of_12 : version_tag_of 12 = "v12.0".
Proof. reflexivity. Qed.

(** ** Promotion *)

Lemma find_version_None ver versions :
  find_version ver versions = None ↔ ∀ vm, vm ∈ versions → version vm ≠ ver.
Proof.
  unfold find_version. rewrite fmap_None, list_find_None, Forall_forall.
  reflexivity.
Qed.

Lemma find_version_Some ver versions i :
  find_version ver versions = Some i ↔
  ∃ vm, versions !! i = Some vm ∧ version vm = ver ∧
    ∀ j x, versions !! j = Some x → j < i → version x ≠ ver.
Proof.
  unfold find_version. rewrite fmap_Some. split.
  - intros [[i' vm] [H ->]]. apply list_find_Some in H. simpl. eauto.
  - intros (vm & H1 & H2 & H3). exists (i, vm). split; [|done].
    apply list_find_Some. eauto.
Qed.

(** What a call of [promote_to_production] does, case by case. *)
Lemma promote_to_production_unfold env name ver who notes self :
  promote_to_production env name ver who notes self =
  match models self !! name with
  | None => (Ok false, self)
  | Some versions =>
      match find_version ver versions with
      | None => (Ok false, self)
      | Some i =>
          (Ok true,
           set_models
             (<[name := alter (promote who (now env)) i (demote <$> versions)]>
                (models self)) self)
      end
  end.
Proof.
  unfold promote_to_production. run.
  destruct (models self !! name) as [versions|] eqn:Hn; [|done].
  destruct (find_version ver versions) as [i|]; [|done].
  simpl. f_equal. unfold set_models; simpl. f_equal.
  apply map_eq; intros k. destruct (decide (k = name)) as [->|Hk].
  - rewrite lookup_insert_eq, !lookup_alter_eq, Hn. done.
  - rewrite lookup_insert_ne, !lookup_alter_ne by done. done.
Qed.

Lemma status_demote vm :
  status (demote vm) =
  if decide (status vm = VStr "production") then VStr "staging" else status vm.
Proof. unfold demote. destruct (decide _); done. Qed.

Lemma demote_not_production vm : status (demote vm) ≠ VStr "production".
Proof. rewrite status_demote. destruct (decide _); done. Qed.

Lemma prod_versions_nil_iff versions :
  prod_versions versions = [] ↔
  ∀ vm, vm ∈ versions → status vm ≠ VStr "production".
Proof.
  unfold prod_versions. induction versions as [|vm versions IH].
  - split; [intros _ vm H; inversion H | done].
  - rewrite filter_cons. destruct (decide _) as [Hp|Hp].
    + split; [done|]. intros H. destruct (H vm); [left | done].
    + rewrite IH. split.
      * intros H x Hx. apply elem_of_cons in Hx as [->|Hx]; auto.
      * intros H x Hx. apply H. by right.
Qed.

Lemma prod_versions_demote versions : prod_versions (demote <$> versions) = [].
Proof.
  apply prod_versions_nil_iff. intros vm [x [-> _]]%list_elem_of_fmap.
  apply demote_not_production.
Qed.

(** Promoting one record of a sequence with nothing in production leaves
    exactly that record in production. *)
Lemma prod_versions_promote who when i vm versions :
  prod_versions versions = [] → versions !! i = Some vm →
  prod_versions (alter (promote who when) i versions) = [promote who when vm].
Proof.
  unfold prod_versions. revert i.
  induction versions as [|x versions IH]; intros i Hnil Hi; [done|].
  rewrite filter_cons in Hnil. destruct (decide (status x = _)) as [|Hx]; [done|].
  destruct i as [|i]; simpl in *.
  - injection Hi as ->. rewrite filter_cons_True by done. by rewrite Hnil.
  - rewrite filter_cons_False by done. eauto.
Qed.

(** After a successful promotion the sequence of the promoted name has
    exactly one record in production, whatever it held before. *)
Lemma promote_production_count env name ver who notes self self' :
  promote_to_production env name ver who notes self = (Ok true, self') →
  production_count (records_of self' name) = 1.
Proof.
  rewrite promote_to_production_unfold. unfold records_of, production_count.
  destruct (models self !! name) as [versions|]; [|done].
  destruct (find_version ver versions) as [i|] eqn:Hi; [|done].
  intros [= <-]. simpl. rewrite lookup_insert_eq. simpl.
  apply find_version_Some in Hi as (vm & Hvm & _).
  erewrite prod_versions_promote; [done|apply prod_versions_demote|].
  by rewrite list_lookup_fmap, Hvm.
Qed.

(** A call of [promote_to_production] leaves every other name as it was. *)
Lemma promote_other_names env name ver who notes self other :
  other ≠ name →
  models (promote_to_production env name ver who notes self).2 !! other =
  models self !! other.
Proof.
  intros Hne. rewrite promote_to_production_unfold.
  destruct (models self !! name) as [versions|]; [|done].
  destruct (find_version ver versions); [|done].
  simpl. by rewrite lookup_insert_ne.
Qed.

(** A call of [promote_to_production] never raises. *)
Lemma promote_returns env name ver who notes self :
  ∃ b, (promote_to_production env name ver who notes self).1 = Ok b.
Proof.
  rewrite promote_to_production_unfold.
  destruct (models self !! name) as [versions|]; [|by eexists].
  destruct (find_version ver versions); by eexists.
Qed.

Lemma promote_keeps_single_production env name ver who notes self :
  single_production self →
  single_production (promote_to_production env name ver who notes self).2.
Proof.
  intros Hinv other versions' Hl.
  destruct (decide (other = name)) as [->|Hne].
  - destruct (promote_to_production env name ver who notes self)
      as [[[]|e] self'] eqn:Hcall; simpl in *.
    + apply promote_production_count in Hcall.
      unfold records_of in Hcall. rewrite Hl in Hcall. simpl in Hcall. lia.
    + rewrite promote_to_production_unfold in Hcall.
      destruct (models self !! name) as [versions|] eqn:Hn.
      * destruct (find_version ver versions); [done|].
        injection Hcall as <-. eauto.
      * injection Hcall as <-. eauto.
    + pose proof (promote_returns env name ver who notes self) as [b Hb].
      rewrite Hcall in Hb. done.
  - rewrite promote_other_names in Hl by done. eauto.
Qed.

Lemma promote_all_keeps_single_production calls self :
  single_production self → single_production (promote_all calls self).
Proof.
  unfold promote_all. revert self.
  induction calls as [|c calls IH]; intros self Hinv; [done|].
  simpl. apply IH. by apply promote_keeps_single_production.
Qed.

(** Once a call has promoted a version of [name], later calls keep exactly
    one record of [name] in production, whatever the registry held at the
    start. *)
Lemma promote_all_after_success pre c post self after :
  run_promote c (promote_all pre self) = (Ok true, after) →
  production_count
    (records_of (promote_all (pre ++ c :: post) self) (pc_name c)) = 1.
Proof.
  intros Hcall. unfold promote_all. rewrite foldl_app. simpl.
  fold (promote_all pre self). rewrite Hcall. simpl.
  unfold run_promote in Hcall.
  apply promote_production_count in Hcall.
  revert after Hcall. induction post as [|c' post IH]; intros cur Hcur; [done|].
  simpl. apply IH. unfold run_promote.
  destruct (decide (pc_name c' = pc_name c)) as [Heq|Hne].
  - destruct (promote_to_production (pc_env c') (pc_name c') (pc_version c')
                (pc_approved_by c') (pc_approval_notes c') cur)
      as [[[]|e] next] eqn:Hnext; simpl.
    + rewrite <- Heq. apply (promote_production_count _ _ _ _ _ _ _ Hnext).
    + rewrite promote_to_production_unfold in Hnext.
      destruct (models cur !! pc_name c') as [versions|].
      * destruct (find_version (pc_version c') versions); [done|].
        by injection Hnext as <-.
      * by injection Hnext as <-.
    + pose proof (promote_returns (pc_env c') (pc_name c') (pc_version c')
        (pc_approved_by c') (pc_approval_notes c') cur) as [b Hb].
      rewrite Hnext in Hb. done.
  - unfold records_of. rewrite promote_other_names by done. done.
Qed.

(** **** C4 *)

(** C4. [promote_to_production] called with a name that the registry does
    not hold, or with a version that no record of the name carries, returns
    [False], raises nothing, and leaves the registry as it was: every
    record of every name, and the attributes of the registry object. *)
Theorem promote_unknown_target env name ver who notes self :
  models self !! name = None ∨
  (∀ vm, vm ∈ records_of self name → version vm ≠ ver) →
  promote_to_production env name ver who notes self = (Ok false, self).
Proof.
  intros H. rewrite promote_to_production_unfold.
  destruct (models self !! name) as [versions|] eqn:Hn; [|done].
  destruct H as [H|H]; [done|].
  unfold records_of in H. rewrite Hn in H. simpl in H.
  apply find_version_None in H. by rewrite H.
Qed.

(** **** C10 *)

(** C10. A successful [promote_to_production] touches only the records
    stored under [name].  The attributes of the registry and the records of
    every other name are unchanged.  Under [name] the sequence keeps its
    length and order; the target (the first record carrying the version)
    changes in [status], [approved_by] and [approval_date] only, and every
    other record changes in [status] only, from ['production'] to
    ['staging'], or not at all. *)
Theorem promote_frame env name ver who notes self self' :
  promote_to_production env name ver who notes self = (Ok true, self') →
  backend self' = backend self ∧ uri self' = uri self ∧
  (∀ other, other ≠ name → models self' !! other = models self !! other) ∧
  ∃ i versions versions',
    models self !! name = Some versions ∧
    models self' !! name = Some versions' ∧
    find_version ver versions = Some i ∧
    length versions' = length versions ∧
    ∀ j vm, versions !! j = Some vm →
      ∃ vm', versions' !! j = Some vm' ∧
        if decide (j = i) then
          same_but_approval vm' vm ∧
          status vm' = VStr "production" ∧
          approved_by vm' = VStr who ∧
          approval_date vm' = VStr (now env)
        else
          same_but_status vm' vm ∧
          status vm' =
            if decide (status vm = VStr "production") then VStr "staging"
            else status vm.
Proof.
  intros Hcall.
  split_and!.
  - rewrite promote_to_production_unfold in Hcall.
    destruct (models self !! name) as [versions|]; [|done].
    destruct (find_version ver versions); [|done]. by injection Hcall as <-.
  - rewrite promote_to_production_unfold in Hcall.
    destruct (models self !! name) as [versions|]; [|done].
    destruct (find_version ver versions); [|done]. by injection Hcall as <-.
  - intros other Hne.
    rewrite <- (promote_other_names env name ver who notes self other Hne).
    by rewrite Hcall.
  - rewrite promote_to_production_unfold in Hcall.
    destruct (models self !! name) as [versions|] eqn:Hn; [|done].
    destruct (find_version ver versions) as [i|] eqn:Hi; [|done].
    injection Hcall as <-. exists i, versions. eexists. split_and!.
    + done.
    + simpl. apply lookup_insert_eq.
    + done.
    + by rewrite length_alter, length_fmap.
    + intros j vm Hj. destruct (decide (j = i)) as [->|Hne].
      * exists (promote who (now env) (demote vm)). split.
        { by rewrite list_lookup_alter_eq, list_lookup_fmap, Hj. }
        unfold same_but_approval, promote, demote.
        destruct vm; destruct (decide _); done.
      * exists (demote vm). split.
        { by rewrite list_lookup_alter_ne, list_lookup_fmap, Hj. }
        rewrite status_demote. split; [|done].
        unfold same_but_status, demote.
        destruct vm; destruct (decide _); done.
Qed.

(** **** C1 *)

(** The records that a successful promotion finds in production under
    another version than the promoted one are in staging afterwards. *)
Lemma promote_demotes_to_staging env name ver who notes self self' i a :
  promote_to_production env name ver who notes self = (Ok true, self') →
  record_at self name i = Some a →
  status a = VStr "production" → version a ≠ ver →
  record_at self' name i = Some (set_status (VStr "staging") a).
Proof.
  unfold record_at. rewrite promote_to_production_unfold.
  destruct (models self !! name) as [versions|]; [|done].
  destruct (find_version ver versions) as [k|] eqn:Hk; [|done].
  intros [= <-] Ha Hst Hver. simpl in *. rewrite lookup_insert_eq. simpl.
  apply find_version_Some in Hk as (vm & Hvm & Hv & _).
  assert (k ≠ i) by (intros ->; congruence).
  rewrite list_lookup_alter_ne, list_lookup_fmap, Ha by done. simpl.
  unfold demote. by rewrite decide_True.
Qed.

(** C1, amended. From a registry with at most one record in production per
    name, every sequence of [promote_to_production] calls leads to a
    registry with at most one record in production per name.  When a
    further call then promotes a version successfully, every record of that
    name that was in production under another version has status
    ['staging'] afterwards (so neither ['production'] nor ['development']
    nor ['deprecated']), stays at its position, and keeps every other
    field. *)
Theorem single_production_invariant calls self :
  single_production self →
  single_production (promote_all calls self) ∧
  ∀ c after i a,
    run_promote c (promote_all calls self) = (Ok true, after) →
    record_at (promote_all calls self) (pc_name c) i = Some a →
    status a = VStr "production" → version a ≠ pc_version c →
    single_production after ∧
    ∃ a',
      record_at after (pc_name c) i = Some a' ∧
      status a' = VStr "staging" ∧
      status a' ≠ VStr "production" ∧
      status a' ≠ VStr "development" ∧
      status a' ≠ VStr "deprecated" ∧
      name a' = name a ∧ version a' = version a ∧
      model_type a' = model_type a ∧ domain a' = domain a ∧
      created_date a' = created_date a ∧ created_by a' = created_by a ∧
      approval_date a' = approval_date a ∧ approved_by a' = approved_by a ∧
      performance_metrics a' = performance_metrics a ∧
      validation_report a' = validation_report a ∧
      data_sha256 a' = data_sha256 a ∧ model_sha256 a' = model_sha256 a.
Proof.
  intros Hinv. split; [by apply promote_all_keeps_single_production|].
  intros c after i a Hcall Ha Hst Hver. split.
  - replace after with (run_promote c (promote_all calls self)).2
      by (by rewrite Hcall).
    apply promote_keeps_single_production.
    by apply promote_all_keeps_single_production.
  - exists (set_status (VStr "staging") a). unfold run_promote in Hcall.
    split; [by apply (promote_demotes_to_staging _ _ _ _ _ _ _ _ _ Hcall)|].
    simpl. split_and!; done.
Qed.

Lemma single_production_invariant_witness :
  single_production Sample.registry ∧
  single_production (promote_all [Sample.promote_v2] Sample.registry) ∧
  ∃ a',
    record_at
      (run_promote Sample.promote_v1
         (promote_all [Sample.promote_v2] Sample.registry)).2
      "credit_scoring" 1 = Some a' ∧
    status a' = VStr "staging" ∧
    version a' = "v2.0".
Proof.
  assert (H : single_production Sample.registry)
    by (apply (bool_decide_unpack _); vm_compute; exact I).
  destruct (single_production_invariant [Sample.promote_v2] Sample.registry H)
    as [H1 H2].
  split_and!; [exact H | exact H1 |].
  destruct (H2 Sample.promote_v1
              (run_promote Sample.promote_v1
                 (promote_all [Sample.promote_v2] Sample.registry)).2 1
              (promote "bob" "2024-03-01T09:00:00" Sample.v2))
    as (_ & a' & Hrec & Hst & _ & _ & _ & _ & Hver & _).
  - apply surjective_pairing.
  - vm_compute. reflexivity.
  - vm_compute. reflexivity.
  - vm_compute. discriminate.
  - exists a'. split_and!; [exact Hrec | exact Hst | exact Hver].
Defined.

(** C1 as stated fails: without a condition on the registry at the start,
    a sequence of [promote_to_production] calls can end with two records of
    one name in production.  The registry below is reached from a fresh one
    by [register], [promote_to_production] and a [register] that asks for
    status ['production']; the one promotion that follows succeeds on
    another name and leaves both records in production. *)
Lemma single_production_unrestricted_counterexample :
  let self :=
    run_calls Sample.pickle_dumps Sample.digest Sample.overridden_history
      (init "filesystem" "models/") in
  let after := promote_all [Sample.promote_fraud] self in
  (run_promote Sample.promote_fraud self).1 = Ok true ∧
  status <$> records_of after "credit_scoring"
    = [VStr "production"; VStr "production"] ∧
  production_count (records_of after "credit_scoring") = 2 ∧
  ¬ single_production after.
Proof.
  intros self after. split_and!.
  - vm_compute. reflexivity.
  - vm_compute. reflexivity.
  - vm_compute. reflexivity.
  - intros H.
    assert (Hl : models after !! "credit_scoring"
                 = Some (records_of after "credit_scoring"))
      by (vm_compute; reflexivity).
    apply H in Hl. vm_compute in Hl. lia.
Qed.

Lemma promote_unknown_target_witness :
  promote_to_production (Sample.env_at "2024-03-01T09:00:00")
    "nosuch" "v1.0" "bob" "initial release" Sample.registry
  = (Ok false, Sample.registry) ∧
  promote_to_production (Sample.env_at "2024-03-01T09:00:00")
    "credit_scoring" "v3.0" "bob" "initial release" Sample.registry
  = (Ok false, Sample.registry).
Proof.
  split.
  - apply promote_unknown_target. left. vm_compute. reflexivity.
  - apply promote_unknown_target. right. apply Forall_forall.
    apply (bool_decide_unpack _). vm_compute. exact I.
Defined.

Lemma promote_frame_witness :
  let self' := (run_promote Sample.promote_v2 Sample.registry).2 in
  run_promote Sample.promote_v2 Sample.registry = (Ok true, self') ∧
  backend self' = "filesystem" ∧
  models self' !! "other_model" = None.
Proof.
  intros self'.
  assert (H : run_promote Sample.promote_v2 Sample.registry = (Ok true, self'))
    by (vm_compute; reflexivity).
  destruct (promote_frame (Sample.env_at "2024-03-01T09:00:00")
              "credit_scoring" "v2.0" "bob" "upgrade" Sample.registry self' H)
    as (Hb & _ & Ho & _).
  split_and!; [exact H | exact Hb |].
  rewrite Ho; [vm_compute; reflexivity | discriminate].
Defined.

(** ** Registration *)

Section Registration.

Context {Artifact : Type}.
Context (pickle_dumps : Artifact → result bytes).
Context (sha256_hexdigest : bytes → string).

#[local] Abbreviation register := (register pickle_dumps sha256_hexdigest).
#[local] Abbreviation register_all := (register_all pickle_dumps sha256_hexdigest).
#[local] Abbreviation _calculate_sha256 := (_calculate_sha256 pickle_dumps sha256_hexdigest).
#[local] Abbreviation persistence_fails := (persistence_fails pickle_dumps).

(** What a call of [register] does, case by case. *)
Lemma register_unfold env name model mt who md self :
  register env name model mt who md self =
  match pickle_dumps model with
  | Raise e => (Raise e, self)
  | Ok serialized =>
      let model_meta :=
        new_record env name (length (records_of self name) + 1) mt who md
          (sha256_hexdigest serialized) in
      match write_failure env self with
      | Some e => (Raise e, self)
      | None =>
          (Ok model_meta,
           set_models
             (<[name := records_of self name ++ [model_meta]]> (models self))
             self)
      end
  end.
Proof.
  unfold Registry.register, Registry._calculate_sha256, write_failure,
    _save_model_filesystem, _save_model_mlflow, records_of, new_record. run.
  destruct (pickle_dumps model) as [serialized|e]; [|done]. simpl.
  assert (Hupd : ∀ r : ModelMetadata,
    alter (λ l, l ++ [r]) name
      (models match models self !! name with
              | Some _ => self
              | None => set_models (<[name:=[]]> (models self)) self
              end)
    = <[name := default [] (models self !! name) ++ [r]]> (models self)).
  { intros r. apply map_eq; intros k. destruct (decide (k = name)) as [->|Hk].
    - rewrite lookup_insert_eq, lookup_alter_eq.
      destruct (models self !! name) as [l|] eqn:Hn; simpl.
      + by rewrite Hn.
      + by rewrite lookup_insert_eq.
    - rewrite lookup_insert_ne, lookup_alter_ne by done.
      destruct (models self !! name); simpl; [done|].
      by rewrite lookup_insert_ne. }
  destruct (decide (backend self = "filesystem")).
  - destruct (mkdir_outcome env); simpl; [done|].
    destruct (model_pkl_outcome env); simpl; [done|].
    destruct (metadata_json_outcome env); simpl; [done|].
    rewrite Hupd. by destruct (models self !! name).
  - destruct (decide (backend self = "mlflow")); simpl;
      rewrite Hupd; by destruct (models self !! name).
Qed.

(** **** C5 *)

(** C5. When persistence fails during [register] (the model cannot be
    serialized for hashing, or a step of the durable write fails), the call
    raises to its caller instead of returning a record, and the registry is
    as it was before the call: nothing has been appended under the name. *)
Theorem register_fails_loud env name model mt who md self :
  persistence_fails env self model →
  ∃ e, register env name model mt who md self = (Raise e, self).
Proof.
  intros H. rewrite register_unfold.
  destruct (pickle_dumps model) as [serialized|e] eqn:Hp; [|by eexists].
  destruct H as [[e He]|[e He]]; [congruence|]. rewrite He. by eexists.
Qed.

(** A call of [register] that meets no failure returns. *)
Lemma register_succeeds env name model mt who md self :
  ¬ persistence_fails env self model →
  ∃ r self', register env name model mt who md self = (Ok r, self').
Proof.
  intros H. rewrite register_unfold.
  destruct (pickle_dumps model) as [serialized|e] eqn:Hp.
  - destruct (write_failure env self) as [e|] eqn:He; simpl; [|by eauto].
    destruct H. right. eauto.
  - destruct H. left. eauto.
Qed.

(** What a successful call of [register] returns and leaves. *)
Lemma register_Ok env name model mt who md self r self' :
  register env name model mt who md self = (Ok r, self') →
  ∃ serialized,
    pickle_dumps model = Ok serialized ∧
    r = new_record env name (length (records_of self name) + 1) mt who md
          (sha256_hexdigest serialized) ∧
    records_of self' name = records_of self name ++ [r] ∧
    ∀ other, other ≠ name → models self' !! other = models self !! other.
Proof.
  rewrite register_unfold.
  destruct (pickle_dumps model) as [serialized|e]; [|done].
  destruct (write_failure env self); [done|]. simpl. intros [= <- <-].
  exists serialized. split_and!; [done|done| |].
  - unfold records_of at 1. simpl. by rewrite lookup_insert_eq.
  - intros other Hne. simpl. by rewrite lookup_insert_ne.
Qed.

(** **** C7 *)

(** C7. The model hash depends on the serialized bytes only: two artifacts
    with the same serialized bytes have the same digest, and two successful
    registrations of them, in whatever registry and under whatever name and
    version, record that same digest as [model_sha256]. *)
Theorem hash_determinism obj1 obj2 serialized :
  pickle_dumps obj1 = Ok serialized →
  pickle_dumps obj2 = Ok serialized →
  _calculate_sha256 obj1 = Ok (sha256_hexdigest serialized) ∧
  _calculate_sha256 obj2 = _calculate_sha256 obj1 ∧
  ∀ env1 name1 mt1 who1 md1 self1 r1 self1'
    env2 name2 mt2 who2 md2 self2 r2 self2',
    register env1 name1 obj1 mt1 who1 md1 self1 = (Ok r1, self1') →
    register env2 name2 obj2 mt2 who2 md2 self2 = (Ok r2, self2') →
    model_sha256 r1 = Some (sha256_hexdigest serialized) ∧
    model_sha256 r2 = model_sha256 r1.
Proof.
  intros H1 H2. unfold Registry._calculate_sha256. rewrite H1, H2.
  split_and!; [done|done|].
  intros * Hr1 Hr2.
  apply register_Ok in Hr1 as (s1 & Hs1 & -> & _).
  apply register_Ok in Hr2 as (s2 & Hs2 & -> & _).
  simpl. split; congruence.
Qed.

(** **** C8 *)

Lemma production_count_app l1 l2 :
  production_count (l1 ++ l2) = production_count l1 + production_count l2.
Proof.
  unfold production_count, prod_versions. by rewrite filter_app, length_app.
Qed.

(** C8. [register] copies the status found in the [metadata] argument
    without checking it: when that status is ['production'], the call
    appends a record in production and leaves the records already stored
    under the name as they are, so that a name that had a record in
    production has two or more afterwards. *)
Theorem register_status_override env name model mt who d self r self' :
  d !! "status" = Some (VStr "production") →
  register env name model mt who (Some d) self = (Ok r, self') →
  status r = VStr "production" ∧
  records_of self' name = records_of self name ++ [r] ∧
  production_count (records_of self' name) =
    production_count (records_of self name) + 1 ∧
  (1 ≤ production_count (records_of self name) → ¬ single_production self').
Proof.
  intros Hd Hcall. apply register_Ok in Hcall as (s & _ & Hr & Happ & _).
  assert (Hst : status r = VStr "production").
  { rewrite Hr. simpl. unfold metadata_get.
    rewrite bool_decide_eq_false_2; [by rewrite Hd|].
    intros ->. by rewrite lookup_empty in Hd. }
  assert (Hcount : production_count (records_of self' name) =
                   production_count (records_of self name) + 1).
  { rewrite Happ, production_count_app. f_equal.
    unfold production_count, prod_versions.
    by rewrite filter_cons_True. }
  split_and!; [done|done|done|].
  intros Hone Hinv. unfold records_of in Hcount at 1.
  destruct (models self' !! name) as [l|] eqn:Hl; simpl in Hcount.
  - apply Hinv in Hl. simpl in Hl. lia.
  - unfold production_count in Hcount. simpl in Hcount. lia.
Qed.

(** **** C2 *)

Lemma register_all_versions name calls : ∀ self results self',
  register_all name calls self = (results, self') →
  Forall (λ r, is_Ok r) results →
  ∃ recs, results = Ok <$> recs ∧
    version <$> recs =
      version_tag_of <$> seq (length (records_of self name) + 1) (length calls) ∧
    records_of self' name = records_of self name ++ recs.
Proof.
  induction calls as [|c calls IH]; intros self results self' Hrun Hok.
  - injection Hrun as <- <-. exists []. by rewrite app_nil_r.
  - simpl in Hrun.
    destruct (run_register pickle_dumps sha256_hexdigest name c self)
      as [r self1] eqn:Hc.
    destruct (register_all name calls self1) as [rs self2] eqn:Hrs.
    injection Hrun as <- <-. apply Forall_cons in Hok as [Hr Hok].
    destruct r as [rec|e]; [|done].
    apply register_Ok in Hc as (s & _ & Hrec & Happ & _).
    destruct (IH _ _ _ Hrs Hok) as (recs & -> & Hv & Hl).
    exists (rec :: recs). split_and!.
    + done.
    + rewrite Happ, length_app in Hv. change (length [rec]) with 1 in Hv.
      rewrite fmap_cons, Hv. cbn [length seq]. rewrite fmap_cons.
      f_equal; [by rewrite Hrec|]. do 2 f_equal. lia.
    + by rewrite Hl, Happ, <- app_assoc.
Qed.

(** C2. Starting from a registry that holds no record under [name], a
    sequence of N calls of [register] under [name] that all succeed returns
    records whose version tags are [v1.0], [v2.0], ..., [vN.0] in call
    order, and the sequence stored under [name] afterwards is the sequence
    of the returned records, in call order. *)
Theorem register_version_sequence name calls self results self' :
  records_of self name = [] →
  register_all name calls self = (results, self') →
  Forall (λ r, is_Ok r) results →
  ∃ recs, results = Ok <$> recs ∧
    length recs = length calls ∧
    version <$> recs = version_tag_of <$> seq 1 (length calls) ∧
    records_of self' name = recs.
Proof.
  intros Hnone Hrun Hok.
  destruct (register_all_versions _ _ _ _ _ Hrun Hok) as (recs & Hres & Hv & Hl).
  rewrite Hnone in Hv, Hl. exists recs. split_and!; [done| |done|done].
  apply (f_equal length) in Hv. by rewrite !length_fmap, length_seq in Hv.
Qed.

End Registration.

Lemma register_version_sequence_witness :
  let calls :=
    [ {| rc_env := Sample.env_at "2024-01-01T09:00:00"; rc_model := "A";
         rc_model_type := "classifier"; rc_created_by := "alice";
         rc_metadata := None |};
      {| rc_env := Sample.env_at "2024-02-01T09:00:00"; rc_model := "B";
         rc_model_type := "classifier"; rc_created_by := "alice";
         rc_metadata := None |} ] in
  let run :=
    register_all Sample.pickle_dumps Sample.digest "credit_scoring" calls
      (init "filesystem" "models/") in
  ∃ recs, run.1 = Ok <$> recs ∧
    length recs = 2 ∧
    version <$> recs = ["v1.0"; "v2.0"] ∧
    records_of run.2 "credit_scoring" = recs.
Proof.
  intros calls run.
  apply (register_version_sequence Sample.pickle_dumps Sample.digest
           "credit_scoring" calls (init "filesystem" "models/") run.1 run.2).
  - vm_compute. reflexivity.
  - vm_compute. reflexivity.
  - vm_compute. repeat constructor.
Defined.

Lemma register_fails_loud_witness :
  ∃ e,
    register Sample.pickle_dumps Sample.digest
      (Sample.env_disk_full "2024-03-01T09:00:00") "credit_scoring" "C"
      "classifier" "alice" None Sample.registry
    = (Raise e, Sample.registry).
Proof.
  apply register_fails_loud. right. exists OSError. vm_compute. reflexivity.
Defined.

Lemma hash_determinism_witness :
  let first :=
    register Sample.pickle_dumps Sample.digest
      (Sample.env_at "2024-03-01T09:00:00") "credit_scoring" "A"
      "classifier" "alice" None Sample.registry in
  let second :=
    register Sample.pickle_dumps Sample.digest
      (Sample.env_at "2024-03-02T09:00:00") "credit_scoring" "A"
      "classifier" "alice" None first.2 in
  ∃ r1 r2, first.1 = Ok r1 ∧ second.1 = Ok r2 ∧
    version r1 = "v3.0" ∧ version r2 = "v4.0" ∧
    model_sha256 r2 = model_sha256 r1.
Proof.
  intros first second. eexists _, _.
  split; [vm_compute; reflexivity|].
  split; [vm_compute; reflexivity|].
  split; [reflexivity|]. split; [reflexivity|].
  destruct (hash_determinism Sample.pickle_dumps Sample.digest "A" "A"
              (String.list_byte_of_string "A"))
    as (_ & _ & H3); [vm_compute; reflexivity | vm_compute; reflexivity |].
  refine (proj2 (H3 (Sample.env_at "2024-03-01T09:00:00") "credit_scoring"
                    "classifier" "alice" None Sample.registry _ first.2
                    (Sample.env_at "2024-03-02T09:00:00") "credit_scoring"
                    "classifier" "alice" None first.2 _ second.2 _ _));
    vm_compute; reflexivity.
Defined.

Lemma register_status_override_witness :
  let s0 := init "mlflow" "mlruns/" in
  let s1 :=
    (register Sample.pickle_dumps Sample.digest
       (Sample.env_at "2024-01-01T09:00:00") "credit_scoring" "A"
       "classifier" "alice" None s0).2 in
  let s2 :=
    (promote_to_production (Sample.env_at "2024-01-02T09:00:00")
       "credit_scoring" "v1.0" "bob" "initial release" s1).2 in
  let call :=
    register Sample.pickle_dumps Sample.digest
      (Sample.env_at "2024-01-03T09:00:00") "credit_scoring" "B"
      "classifier" "alice" (Some Sample.production_override) s2 in
  single_production s2 ∧
  is_Ok call.1 ∧
  production_count (records_of call.2 "credit_scoring") = 2 ∧
  ¬ single_production call.2.
Proof.
  intros s0 s1 s2 call.
  destruct (register_status_override Sample.pickle_dumps Sample.digest
              (Sample.env_at "2024-01-03T09:00:00") "credit_scoring" "B"
              "classifier" "alice" Sample.production_override s2
              (new_record (Sample.env_at "2024-01-03T09:00:00")
                 "credit_scoring" 2 "classifier" "alice"
                 (Some Sample.production_override) "1")
              call.2)
    as (_ & _ & Hcount & Hbreak).
  - vm_compute. reflexivity.
  - vm_compute. reflexivity.
  - split_and!.
    + apply (bool_decide_unpack _). vm_compute. exact I.
    + vm_compute. exact I.
    + rewrite Hcount. vm_compute. reflexivity.
    + apply Hbreak. vm_compute. lia.
Defined.

(** ** Lookup of the production model *)

(** The order of [str] is a strict total order. *)
Lemma compare_lt_trans a : ∀ b c,
  String.compare a b = Lt → String.compare b c = Lt → String.compare a c = Lt.
Proof.
  induction a as [|x a IH]; intros [|y b] [|z c]; simpl; try done.
  unfold Ascii.compare.
  destruct (N.compare_spec (Ascii.N_of_ascii x) (Ascii.N_of_ascii y)) as [Hxy|Hxy|Hxy],
           (N.compare_spec (Ascii.N_of_ascii y) (Ascii.N_of_ascii z)) as [Hyz|Hyz|Hyz],
           (N.compare_spec (Ascii.N_of_ascii x) (Ascii.N_of_ascii z)) as [Hxz|Hxz|Hxz];
    try done; try lia.
  apply IH.
Qed.

Lemma str_lt_trans a b c : str_lt a b → str_lt b c → str_lt a c.
Proof.
  unfold str_lt, String.ltb. intros Hab Hbc.
  destruct (String.compare a b) eqn:H1; try done.
  destruct (String.compare b c) eqn:H2; try done.
  by rewrite (compare_lt_trans _ _ _ H1 H2).
Qed.

Lemma str_le_lt_trans a b c : str_le a b → str_lt b c → str_lt a c.
Proof.
  unfold str_le. intros Hab Hbc.
  unfold String.ltb in Hab. rewrite String.compare_antisym in Hab.
  destruct (String.compare a b) eqn:H1; try done.
  - apply String.compare_eq_iff in H1 as ->. done.
  - apply (str_lt_trans a b c); [|done]. unfold str_lt, String.ltb. by rewrite H1.
Qed.

Lemma str_lt_le a b : str_lt a b → str_le a b.
Proof.
  unfold str_lt, str_le, String.ltb. rewrite (String.compare_antisym b a).
  by destruct (String.compare a b).
Qed.

Lemma str_le_refl a : str_le a a.
Proof.
  unfold str_le, String.ltb.
  destruct (String.compare a a) eqn:H; try done.
  pose proof (String.compare_antisym a a) as H'. rewrite H in H'. done.
Qed.

(** [max_from] splits the items it has seen around the item it returns:
    the items before it have a strictly smaller key, the items after it a
    key that is not greater. *)
Lemma max_from_split {A} (key : A → string) rest : ∀ before best mid,
  Forall (λ y, str_lt (key y) (key best)) before →
  Forall (λ y, str_le (key y) (key best)) mid →
  ∃ before' mid',
    before ++ [best] ++ mid ++ rest =
      before' ++ [max_from key best rest] ++ mid' ∧
    Forall (λ y, str_lt (key y) (key (max_from key best rest))) before' ∧
    Forall (λ y, str_le (key y) (key (max_from key best rest))) mid'.
Proof.
  induction rest as [|x rest IH]; intros before best mid Hb Hm; simpl.
  - exists before, mid. by rewrite app_nil_r.
  - destruct (String.ltb (key best) (key x)) eqn:Hx.
    + destruct (IH (before ++ [best] ++ mid) x []) as (b' & m' & Heq & Hb' & Hm').
      * rewrite !Forall_app, Forall_singleton. split_and!.
        -- eapply Forall_impl; [exact Hb|]. intros y Hy.
           by apply (str_lt_trans _ (key best)).
        -- done.
        -- eapply Forall_impl; [exact Hm|]. intros y Hy.
           by apply (str_le_lt_trans _ (key best)).
      * constructor.
      * exists b', m'. split; [|done]. etrans; [|exact Heq].
        simpl. rewrite <- ?app_assoc. simpl. by rewrite <- ?app_assoc.
    + destruct (IH before best (mid ++ [x])) as (b' & m' & Heq & Hb' & Hm').
      * done.
      * rewrite Forall_app, Forall_singleton. done.
      * exists b', m'. split; [|done]. etrans; [|exact Heq].
        simpl. rewrite <- ?app_assoc. simpl. by rewrite <- ?app_assoc.
Qed.

Lemma max_from_latest_first_wins first rest :
  latest_first_wins (first :: rest) (max_from created_date first rest).
Proof.
  destruct (max_from_split created_date rest [] first [])
    as (before & mid & Heq & Hb & Hm); [constructor..|].
  simpl in Heq. rewrite Heq. exists (length before). split_and!.
  - by rewrite lookup_app_r, Nat.sub_diag.
  - intros j x Hj. apply list_elem_of_lookup_2 in Hj.
    rewrite elem_of_app, elem_of_cons in Hj.
    destruct Hj as [Hj|[->|Hj]].
    + apply str_lt_le. by eapply Forall_forall in Hb.
    + apply str_le_refl.
    + by eapply Forall_forall in Hm.
  - intros j x Hj Hlt. rewrite lookup_app_l in Hj by done.
    apply list_elem_of_lookup_2 in Hj. by eapply Forall_forall in Hb.
Qed.

Lemma latest_first_wins_unique l r r' :
  latest_first_wins l r → latest_first_wins l r' → r = r'.
Proof.
  intros (i & Hi & Hle & Hlt) (i' & Hi' & Hle' & Hlt').
  assert (Hcontra : ∀ a b, str_lt a b → str_le b a → False).
  { unfold str_lt, str_le. congruence. }
  destruct (Nat.lt_trichotomy i i') as [H|[->|H]].
  - destruct (Hcontra _ _ (Hlt' _ _ Hi H) (Hle _ _ Hi')).
  - congruence.
  - destruct (Hcontra _ _ (Hlt _ _ Hi' H) (Hle' _ _ Hi)).
Qed.

Section Lookup.

Context {Artifact : Type}.
Context (fs : string → string → result Artifact).

(** What a call of [get_production_model] does, case by case. *)
Lemma get_production_model_unfold name self :
  get_production_model fs name self =
  match prod_versions (records_of self name) with
  | [] => (Ok None, self)
  | first :: rest =>
      let latest := max_from created_date first rest in
      if decide (backend self = "filesystem") then
        match fs name (version latest) with
        | Ok model => (Ok (Some (latest, model)), self)
        | Raise e => (Raise e, self)
        end
      else (Raise AttributeError, self)
  end.
Proof.
  unfold get_production_model, _load_model, records_of. run.
  destruct (models self !! name) as [versions|]; simpl; [|done].
  destruct (prod_versions versions) as [|first rest]; [done|]. simpl.
  destruct (decide (backend self = "filesystem")); [|done].
  by destruct (fs name (version (max_from created_date first rest))).
Qed.

(** **** C3 *)

(** C3, amended. When [name] is unknown or none of its records is in
    production, [get_production_model] returns [None] and raises nothing.
    Otherwise it selects, among the records of [name] in production, the
    one with the latest [created_date], and of several records with that
    date the one registered first; it returns that record with the model
    loaded for its version, or raises what the load raises. *)
Theorem production_model_selected name self :
  match prod_versions (records_of self name) with
  | [] => get_production_model fs name self = (Ok None, self)
  | _ :: _ =>
      ∃ latest,
        latest_first_wins (prod_versions (records_of self name)) latest ∧
        (∀ r, latest_first_wins (prod_versions (records_of self name)) r →
              r = latest) ∧
        get_production_model fs name self =
          if decide (backend self = "filesystem") then
            match fs name (version latest) with
            | Ok model => (Ok (Some (latest, model)), self)
            | Raise e => (Raise e, self)
            end
          else (Raise AttributeError, self)
  end.
Proof.
  rewrite get_production_model_unfold.
  destruct (prod_versions (records_of self name)) as [|first rest]; [done|].
  exists (max_from created_date first rest).
  pose proof (max_from_latest_first_wins first rest) as H.
  split_and!; [done| |done].
  intros r Hr. by apply (latest_first_wins_unique (first :: rest)).
Qed.

End Lookup.

(** C3 as stated fails: two records in production with the same
    [created_date]; the call returns the one registered first, where the
    claim names the one registered last. *)
Lemma production_model_tie_counterexample :
  ∃ a b,
    records_of Sample.tie_registry "credit_scoring" = [a; b] ∧
    version a = "v1.0" ∧ version b = "v2.0" ∧
    get_production_model Sample.fs "credit_scoring" Sample.tie_registry
      = (Ok (Some (a, "v1.0")), Sample.tie_registry) ∧
    latest_last_wins
      (prod_versions (records_of Sample.tie_registry "credit_scoring")) b ∧
    ¬ latest_last_wins
      (prod_versions (records_of Sample.tie_registry "credit_scoring")) a.
Proof.
  eexists _, _. split; [vm_compute; reflexivity|].
  split_and!; [reflexivity | reflexivity | vm_compute; reflexivity | |].
  - exists 1. split_and!.
    + vm_compute. reflexivity.
    + intros [|[|j]] x Hx; vm_compute in Hx; [| |done];
        injection Hx as <-; vm_compute; reflexivity.
    + intros [|[|j]] x Hx Hj; [lia|lia|]. vm_compute in Hx. done.
  - intros (i & Hi & _ & Hlast). destruct i as [|[|i]].
    + specialize (Hlast 1 _ eq_refl). vm_compute in Hlast.
      assert (0 < 1) as H01 by lia. specialize (Hlast H01). done.
    + vm_compute in Hi. done.
    + vm_compute in Hi. done.
Qed.

(** ** The audit trail *)

(** What a call of [log_action] does: the entry is appended in memory, and
    the result tells whether the durable append went through. *)
Lemma log_action_unfold env action model_id actor details status self :
  Audit.log_action env action model_id actor details status self =
  (Ok (bool_decide (Audit.write_failure env self = None)),
   Audit.set_logs
     (Audit.logs self ++
        [Audit.log_entry_of env action model_id actor details status]) self).
Proof.
  unfold Audit.log_action, Audit._save_log_filesystem, Audit.write_failure,
    Audit.log_entry_of. run. simpl.
  destruct (decide (Audit.storage self = "filesystem")); [|done]. simpl.
  destruct (Audit.open_outcome env _); [done|]. simpl.
  destruct (Audit.json_dumps_outcome env); [done|]. simpl.
  by destruct (Audit.write_outcome env).
Qed.

(** **** C6 *)

(** C6. [log_action] never raises: whatever its arguments and whatever the
    outside world answers, it returns a boolean, [True] when no step of the
    durable append fails and [False] when one does. *)
Theorem log_action_never_raises env action model_id actor details status self :
  ∃ b,
    (Audit.log_action env action model_id actor details status self).1 = Ok b ∧
    (b = true ↔ Audit.write_failure env self = None) ∧
    (b = false ↔ ∃ e, Audit.write_failure env self = Some e).
Proof.
  rewrite log_action_unfold. eexists. split; [done|]. simpl.
  destruct (Audit.write_failure env self) as [e|].
  - rewrite bool_decide_eq_false_2 by done. split; [done|]. split; eauto.
  - rewrite bool_decide_eq_true_2 by done. split; [done|].
    split; [done|]. by intros [e ?].
Qed.

(** **** C9 *)

(** C9. When [log_action] returns [False], a step of the durable append
    has failed and the entry is nevertheless in the in-memory log, as its
    last element: [get_logs] called afterwards without filters, or with the
    model id or the action of the entry as filter, returns it. *)
Theorem failed_log_action_keeps_entry
    env action model_id actor details status self self' mid act days :
  Audit.log_action env action model_id actor details status self
    = (Ok false, self') →
  mid = None ∨ mid = Some model_id →
  act = None ∨ act = Some action →
  let entry := Audit.log_entry_of env action model_id actor details status in
  (∃ e, Audit.write_failure env self = Some e) ∧
  Audit.logs self' = Audit.logs self ++ [entry] ∧
  entry ∈ Audit.get_logs self' mid act days.
Proof.
  rewrite log_action_unfold. intros [= Hb <-] Hmid Hact entry.
  split_and!.
  - apply bool_decide_eq_false in Hb.
    destruct (Audit.write_failure env self); [eauto|done].
  - done.
  - unfold Audit.get_logs. simpl.
    assert (Hin : entry ∈ Audit.logs self ++ [entry])
      by (apply elem_of_app; right; left).
    assert (H1 : entry ∈
      match Audit.given mid with
      | Some m => filter (λ l, Audit.model_id l = m) (Audit.logs self ++ [entry])
      | None => Audit.logs self ++ [entry]
      end).
    { destruct (Audit.given mid) as [m|] eqn:Hm; [|done].
      apply list_elem_of_filter. split; [|done].
      destruct Hmid as [->| ->]; [done|]. simpl in Hm.
      by destruct (decide (model_id = "")); simplify_eq. }
    destruct (Audit.given act) as [a|] eqn:Ha; [|done].
    apply list_elem_of_filter. split; [|done].
    destruct Hact as [->| ->]; [done|]. simpl in Ha.
    by destruct (decide (action = "")); simplify_eq.
Qed.

Lemma failed_log_action_keeps_entry_witness :
  let call :=
    Audit.log_action Sample.audit_env_read_only "promote" "credit_scoring"
      "bob" ∅ "SUCCESS" Sample.trail in
  call.1 = Ok false ∧
  Audit.get_logs call.2 (Some "credit_scoring") None 30 =
    [Audit.log_entry_of Sample.audit_env_read_only "promote" "credit_scoring"
       "bob" ∅ "SUCCESS"].
Proof.
  intros call.
  assert (H : Audit.log_action Sample.audit_env_read_only "promote"
                "credit_scoring" "bob" ∅ "SUCCESS" Sample.trail
              = (Ok false, call.2)) by (vm_compute; reflexivity).
  destruct (failed_log_action_keeps_entry _ _ _ _ _ _ _ _
              (Some "credit_scoring") None 30 H) as (_ & Hlogs & _);
    [right; reflexivity | left; reflexivity |].
  split; [vm_compute; reflexivity|].
  unfold Audit.get_logs. rewrite Hlogs. vm_compute. reflexivity.
Defined.

(** * Further properties of the registry *)

(** ** Lookup of one version *)

Lemma head_versions_matching ver versions :
  head (versions_matching ver versions) =
  find_version ver versions ≫= (versions !!.).
Proof.
  unfold versions_matching, find_version.
  induction versions as [|vm versions IH]; [done|].
  rewrite filter_cons. cbn [list_find]. destruct (decide (version vm = ver)).
  - done.
  - rewrite IH. destruct (list_find _ versions) as [[i x]|]; done.
Qed.

Lemma versions_matching_nil ver versions :
  versions_matching ver versions = [] ↔ find_version ver versions = None.
Proof.
  rewrite find_version_None. unfold versions_matching.
  rewrite <- Forall_forall. split.
  - intros H. apply Forall_forall. intros vm Hvm Hv.
    assert (vm ∈ filter (λ v, version v = ver) versions)
      by (by apply list_elem_of_filter).
    rewrite H in *. by apply not_elem_of_nil in H0.
  - intros H. induction H as [|vm l Hvm _ IH]; [done|].
    by rewrite filter_cons_False.
Qed.

(** [find_version] reads the version tags only. *)
Lemma find_version_ext ver l1 : ∀ l2,
  version <$> l1 = version <$> l2 → find_version ver l1 = find_version ver l2.
Proof.
  unfold find_version.
  induction l1 as [|x l1 IH]; intros [|y l2] Heq; try done.
  injection Heq as Hxy Heq. cbn [list_find]. rewrite Hxy.
  destruct (decide (version y = ver)); [done|].
  specialize (IH _ Heq).
  destruct (list_find _ l1) as [[i a]|], (list_find _ l2) as [[j b]|];
    simpl in *; congruence.
Qed.

Section Versions.

Context {Artifact : Type}.
Context (fs : string → string → result Artifact).

(** What a call of [get_model_version] does, case by case. *)
Lemma get_model_version_unfold name ver self :
  get_model_version fs name ver self =
  match versions_matching ver (records_of self name) with
  | [] => (Ok None, self)
  | first :: _ =>
      if decide (backend self = "filesystem") then
        match fs name ver with
        | Ok model => (Ok (Some (first, model)), self)
        | Raise e => (Raise e, self)
        end
      else (Raise AttributeError, self)
  end.
Proof.
  unfold get_model_version, _load_model, records_of. run.
  destruct (models self !! name) as [versions|]; simpl; [|done].
  destruct (versions_matching ver versions) as [|first rest]; [done|]. simpl.
  destruct (decide (backend self = "filesystem")); [|done].
  by destruct (fs name ver).
Qed.

(** X1. [promote_to_production] and [get_model_version] look the target up
    alike: the promotion returns [False] exactly when the lookup of the same
    name and version returns [None]. *)
Theorem promote_fails_iff_version_absent env name ver who notes self :
  (promote_to_production env name ver who notes self).1 = Ok false ↔
  get_model_version fs name ver self = (Ok None, self).
Proof.
  rewrite promote_to_production_unfold, get_model_version_unfold.
  unfold records_of.
  destruct (models self !! name) as [versions|]; simpl; [|done].
  destruct (versions_matching ver versions) as [|first rest] eqn:Hm.
  - apply versions_matching_nil in Hm. by rewrite Hm.
  - destruct (find_version ver versions) as [i|] eqn:Hf.
    + simpl. split; [done|].
      destruct (decide (backend self = "filesystem")); [|done].
      by destruct (fs name ver).
    + apply versions_matching_nil in Hf. by rewrite Hf in Hm.
Qed.

Lemma version_demote vm : version (demote vm) = version vm.
Proof. unfold demote. by destruct (decide _). Qed.

Lemma version_promote who when vm : version (promote who when vm) = version vm.
Proof. done. Qed.

(** A promotion keeps the version tags of the sequence, in order. *)
Lemma versions_after_promote who when i (versions : list ModelMetadata) :
  version <$> alter (promote who when) i (demote <$> versions)
  = version <$> versions.
Proof.
  apply list_eq. intros j. rewrite !list_lookup_fmap.
  destruct (decide (j = i)) as [->|Hne].
  - rewrite list_lookup_alter_eq, list_lookup_fmap.
    destruct (versions !! i); simpl; [|done]. by rewrite version_demote.
  - rewrite list_lookup_alter_ne, list_lookup_fmap by done.
    destruct (versions !! j); simpl; [|done]. by rewrite version_demote.
Qed.

(** X2. After a successful promotion of a version, on the filesystem
    backend and with a model file that loads, [get_production_model] of the
    name and [get_model_version] of the name and version return the same
    record: it carries the promoted version, is in production and names the
    approver and the time of the promotion. *)
Theorem promoted_version_is_served env name ver who notes self self' model :
  promote_to_production env name ver who notes self = (Ok true, self') →
  backend self = "filesystem" →
  fs name ver = Ok model →
  ∃ target,
    get_production_model fs name self' = (Ok (Some (target, model)), self') ∧
    get_model_version fs name ver self' = (Ok (Some (target, model)), self') ∧
    version target = ver ∧
    status target = VStr "production" ∧
    approved_by target = VStr who ∧
    approval_date target = VStr (now env).
Proof.
  rewrite promote_to_production_unfold.
  destruct (models self !! name) as [versions|] eqn:Hn; [|done].
  destruct (find_version ver versions) as [i|] eqn:Hi; [|done].
  intros [= <-] Hb Hfs.
  pose proof Hi as Hi'. apply find_version_Some in Hi' as (vm & Hvm & Hv & _).
  exists (promote who (now env) (demote vm)).
  assert (Hrec : records_of
    (set_models (<[name:=alter (promote who (now env)) i (demote <$> versions)]>
                   (models self)) self) name
    = alter (promote who (now env)) i (demote <$> versions)).
  { unfold records_of. simpl. by rewrite lookup_insert_eq. }
  split_and!.
  - rewrite get_production_model_unfold, Hrec.
    erewrite prod_versions_promote;
      [|apply prod_versions_demote|by rewrite list_lookup_fmap, Hvm].
    simpl. rewrite decide_True by done.
    rewrite version_demote, Hv, Hfs. done.
  - rewrite get_model_version_unfold, Hrec.
    pose proof (head_versions_matching ver
      (alter (promote who (now env)) i (demote <$> versions))) as Hhead.
    rewrite (find_version_ext _ _ versions) in Hhead
      by apply versions_after_promote.
    rewrite Hi in Hhead. simpl in Hhead.
    rewrite list_lookup_alter_eq, list_lookup_fmap, Hvm in Hhead.
    simpl in Hhead.
    destruct (versions_matching ver _) as [|first rest]; [done|].
    injection Hhead as ->. simpl. rewrite decide_True by done.
    by rewrite Hfs.
  - by rewrite version_promote, version_demote.
  - done.
  - done.
  - done.
Qed.

(** X3. An object built for another backend than ['filesystem'] has no
    storage path: [get_production_model] raises [AttributeError] as soon as
    the name has a record in production, and [get_model_version] as soon as
    a record carries the version.  Neither changes the registry. *)
Theorem lookups_need_filesystem_backend name ver self :
  backend self ≠ "filesystem" →
  (prod_versions (records_of self name) ≠ [] →
   get_production_model fs name self = (Raise AttributeError, self)) ∧
  (versions_matching ver (records_of self name) ≠ [] →
   get_model_version fs name ver self = (Raise AttributeError, self)).
Proof.
  intros Hb. split; intros Hne.
  - rewrite get_production_model_unfold.
    destruct (prod_versions (records_of self name)); [done|].
    simpl. by rewrite decide_False.
  - rewrite get_model_version_unfold.
    destruct (versions_matching ver (records_of self name)); [done|].
    by rewrite decide_False.
Qed.

End Versions.

Lemma promote_fails_iff_version_absent_witness :
  (promote_to_production (Sample.env_at "2024-03-01T09:00:00")
     "credit_scoring" "v3.0" "bob" "" Sample.registry).1 = Ok false.
Proof.
  apply (promote_fails_iff_version_absent Sample.fs).
  vm_compute. reflexivity.
Defined.

Lemma promoted_version_is_served_witness :
  ∃ target,
    get_production_model Sample.fs "credit_scoring"
      (run_promote Sample.promote_v2 Sample.registry).2
    = (Ok (Some (target, "v2.0")),
       (run_promote Sample.promote_v2 Sample.registry).2) ∧
    get_model_version Sample.fs "credit_scoring" "v2.0"
      (run_promote Sample.promote_v2 Sample.registry).2
    = (Ok (Some (target, "v2.0")),
       (run_promote Sample.promote_v2 Sample.registry).2) ∧
    version target = "v2.0" ∧
    status target = VStr "production" ∧
    approved_by target = VStr "bob" ∧
    approval_date target = VStr "2024-03-01T09:00:00".
Proof.
  apply (promoted_version_is_served Sample.fs
           (Sample.env_at "2024-03-01T09:00:00") "credit_scoring" "v2.0"
           "bob" "upgrade" Sample.registry).
  - vm_compute. reflexivity.
  - reflexivity.
  - reflexivity.
Defined.

Lemma lookups_need_filesystem_backend_witness :
  get_production_model Sample.fs "credit_scoring" Sample.mlflow_registry
    = (Raise AttributeError, Sample.mlflow_registry) ∧
  get_model_version Sample.fs "credit_scoring" "v2.0" Sample.mlflow_registry
    = (Raise AttributeError, Sample.mlflow_registry).
Proof.
  destruct (lookups_need_filesystem_backend Sample.fs "credit_scoring" "v2.0"
              Sample.mlflow_registry) as [H1 H2]; [discriminate|].
  split; [apply H1 | apply H2]; vm_compute; discriminate.
Defined.

(** ** Repeated promotion *)

Lemma demote_demote vm : demote (demote vm) = demote vm.
Proof.
  unfold demote at 1. rewrite decide_False; [done|].
  apply demote_not_production.
Qed.

Lemma promote_demote_promote who when vm :
  promote who when (demote (promote who when vm)) = promote who when vm.
Proof.
  unfold demote. rewrite decide_True by done. by destruct vm.
Qed.

(** X4. Promotion is idempotent: repeating a successful call with the same
    arguments at the same clock reading succeeds again and leaves the
    registry as the first call left it. *)
Theorem promote_twice env name ver who notes self self' :
  promote_to_production env name ver who notes self = (Ok true, self') →
  promote_to_production env name ver who notes self' = (Ok true, self').
Proof.
  rewrite !promote_to_production_unfold.
  destruct (models self !! name) as [versions|] eqn:Hn; [|done].
  destruct (find_version ver versions) as [i|] eqn:Hi; [|done].
  intros [= <-]. simpl. rewrite lookup_insert_eq.
  rewrite (find_version_ext _ _ versions) by apply versions_after_promote.
  rewrite Hi. f_equal. unfold set_models. simpl. f_equal.
  rewrite insert_insert_eq. f_equal.
  apply list_eq. intros j. destruct (decide (j = i)) as [->|Hne].
  - rewrite !list_lookup_alter_eq, !list_lookup_fmap, list_lookup_alter_eq,
      list_lookup_fmap.
    destruct (versions !! i); simpl; [|done].
    by rewrite promote_demote_promote.
  - rewrite !list_lookup_alter_ne, !list_lookup_fmap, list_lookup_alter_ne,
      list_lookup_fmap by done.
    destruct (versions !! j); simpl; [|done]. by rewrite demote_demote.
Qed.

Lemma promote_twice_witness :
  run_promote Sample.promote_v2 (run_promote Sample.promote_v2 Sample.registry).2
  = (Ok true, (run_promote Sample.promote_v2 Sample.registry).2).
Proof.
  apply (promote_twice (Sample.env_at "2024-03-01T09:00:00") "credit_scoring"
           "v2.0" "bob" "upgrade" Sample.registry).
  vm_compute. reflexivity.
Defined.

(** ** Version tags *)

Lemma string_length_app (s t : string) :
  String.length (s +:+ t) = String.length s + String.length t.
Proof. induction s as [|a s IH]; simpl; [done|]. by rewrite IH. Qed.

Lemma string_app_inj_r (s1 s2 t : string) : s1 +:+ t = s2 +:+ t → s1 = s2.
Proof.
  revert s2. induction s1 as [|a s1 IH]; intros [|b s2] H.
  - done.
  - apply (f_equal String.length) in H.
    rewrite !string_length_app in H. simpl in H. lia.
  - apply (f_equal String.length) in H.
    rewrite !string_length_app in H. simpl in H. lia.
  - assert (a = b ∧ s1 +:+ t = s2 +:+ t) as [-> H'] by (by injection H).
    f_equal. by apply IH.
Qed.

(** Different counters give different version tags. *)
Lemma version_tag_of_inj n m : version_tag_of n = version_tag_of m → n = m.
Proof.
  unfold version_tag_of. intros H.
  assert (H' : pretty n +:+ ".0" = pretty m +:+ ".0") by (by injection H).
  apply string_app_inj_r in H'. by apply (inj pretty) in H'.
Qed.

(** ** Invariants of the registry along any run of calls *)

Lemma records_of_lookup self name0 versions :
  models self !! name0 = Some versions → records_of self name0 = versions.
Proof. unfold records_of. by intros ->. Qed.

Section Invariants.

Context {Artifact : Type}.
Context (pickle_dumps : Artifact → result bytes).
Context (sha256_hexdigest : bytes → string).

#[local] Abbreviation run_call := (run_call pickle_dumps sha256_hexdigest).
#[local] Abbreviation run_calls := (run_calls pickle_dumps sha256_hexdigest).

(** What one call does to the sequence of one name: nothing, or it appends
    the record that [register] builds, or it demotes the sequence and
    promotes one of its records. *)
Lemma run_call_records (c : Call) self name0 :
  records_of (run_call c self) name0 = records_of self name0 ∨
  (∃ r, records_of (run_call c self) name0 = records_of self name0 ++ [r] ∧
        name r = name0 ∧
        version r = version_tag_of (length (records_of self name0) + 1) ∧
        requested_status c = Some (status r)) ∨
  (∃ who when i vm,
     records_of self name0 !! i = Some vm ∧
     records_of (run_call c self) name0 =
       alter (promote who when) i (demote <$> records_of self name0)).
Proof.
  destruct c as [n rc|pc]; simpl.
  - unfold run_register. rewrite register_unfold.
    destruct (pickle_dumps (rc_model rc)) as [serialized|e]; [|by left].
    destruct (write_failure (rc_env rc) self); simpl; [by left|].
    destruct (decide (n = name0)) as [->|Hne].
    + right; left.
      exists (new_record (rc_env rc) name0 (length (records_of self name0) + 1)
                (rc_model_type rc) (rc_created_by rc) (rc_metadata rc)
                (sha256_hexdigest serialized)).
      split_and!; [|done..].
      unfold records_of at 1. simpl. by rewrite lookup_insert_eq.
    + left. unfold records_of. simpl. by rewrite lookup_insert_ne.
  - unfold run_promote. rewrite promote_to_production_unfold.
    destruct (models self !! pc_name pc) as [versions|] eqn:Hn; [|by left].
    destruct (find_version (pc_version pc) versions) as [i|] eqn:Hi; [|by left].
    simpl. destruct (decide (pc_name pc = name0)) as [<-|Hne].
    + right; right. apply find_version_Some in Hi as (vm & Hvm & _).
      exists (pc_approved_by pc), (now (pc_env pc)), i, vm.
      unfold records_of. simpl. by rewrite lookup_insert_eq, Hn.
    + left. unfold records_of. simpl. by rewrite lookup_insert_ne.
Qed.

(** A property of the sequences that holds of the empty sequence holds of
    the whole registry when it holds of the records of every name. *)
Lemma map_Forall_records (P : string → list ModelMetadata → Prop) self :
  (∀ name0, P name0 []) →
  map_Forall P (models self) ↔ ∀ name0, P name0 (records_of self name0).
Proof.
  intros Hnil. split.
  - intros H name0. unfold records_of.
    destruct (models self !! name0) as [l|] eqn:Hl; simpl; [by eapply H|done].
  - intros H name0 l Hl. specialize (H name0).
    by rewrite (records_of_lookup _ _ _ Hl) in H.
Qed.

(** An invariant of the sequences that one call keeps is kept by a run. *)
Lemma run_calls_invariant (P : string → list ModelMetadata → Prop)
    (allowed : Call → Prop) calls self :
  (∀ name0, P name0 []) →
  (∀ c self name0, allowed c →
     P name0 (records_of self name0) →
     P name0 (records_of (run_call c self) name0)) →
  Forall allowed calls →
  map_Forall P (models self) → map_Forall P (models (run_calls calls self)).
Proof.
  intros Hnil Hstep Hall. rewrite !map_Forall_records by done.
  revert self. induction Hall as [|c calls Hc _ IH]; intros self H; [done|].
  simpl. apply IH. intros name0. by apply Hstep.
Qed.

(** A promotion changes the status and the approval of records only: a
    field that [demote] and [promote] keep is kept along the sequence. *)
Lemma field_after_promote {B} (f : ModelMetadata → B) who when i
    (versions : list ModelMetadata) :
  (∀ vm, f (demote vm) = f vm) →
  (∀ vm, f (promote who when vm) = f vm) →
  f <$> alter (promote who when) i (demote <$> versions) = f <$> versions.
Proof.
  intros Hd Hp. apply list_eq. intros j. rewrite !list_lookup_fmap.
  destruct (decide (j = i)) as [->|Hne].
  - rewrite list_lookup_alter_eq, list_lookup_fmap.
    destruct (versions !! i); simpl; [|done]. by rewrite Hp, Hd.
  - rewrite list_lookup_alter_ne, list_lookup_fmap by done.
    destruct (versions !! j); simpl; [|done]. by rewrite Hd.
Qed.

Lemma name_demote vm : name (demote vm) = name vm.
Proof. unfold demote. by destruct (decide _). Qed.

Lemma registered_part_demote vm : registered_part (demote vm) = registered_part vm.
Proof. unfold demote. by destruct (decide _). Qed.

Lemma run_call_numbered (c : Call) self name0 :
  numbered name0 (records_of self name0) →
  numbered name0 (records_of (run_call c self) name0).
Proof.
  intros [Hv Hn].
  destruct (run_call_records c self name0)
    as [->|[(r & -> & Hr & Hvr & _)|(who & when & i & vm & Hi & ->)]].
  - done.
  - split.
    + rewrite length_app, fmap_app, Hv. simpl. rewrite seq_app, fmap_app.
      simpl. by rewrite Hvr, Nat.add_comm.
    + apply Forall_app. split; [done|]. by apply Forall_singleton.
  - split.
    + rewrite length_alter, length_fmap.
      rewrite (field_after_promote version) by (done || apply version_demote).
      done.
    + apply Forall_forall. intros x Hx.
      assert (Hin : name x ∈ name <$>
        alter (promote who when) i (demote <$> records_of self name0))
        by (apply list_elem_of_fmap; eauto).
      rewrite (field_after_promote name) in Hin
        by (done || apply name_demote).
      apply list_elem_of_fmap in Hin as (y & -> & Hy).
      by eapply Forall_forall in Hn.
Qed.

(** X5. Version tags stay in sequence: in a registry whose records carry,
    under every name, that name and the tags [v1.0], [v2.0], ... in order,
    every run of [register] and [promote_to_production] calls, whatever
    their arguments and whichever of them fail, leads to such a registry
    again.  The registry of a fresh object without stored models is one. *)
Theorem run_calls_well_numbered calls self :
  well_numbered self → well_numbered (run_calls calls self).
Proof.
  apply (run_calls_invariant numbered (λ _, True)).
  - intros name0. split; [done|constructor].
  - intros c s name0 _. apply run_call_numbered.
  - by apply Forall_true.
Qed.

(** X6. Nothing that is fixed at registration is ever rewritten: along
    every run of calls, the records of a name, with status and approval
    left aside, only grow at the end.  No call deletes a record, reorders
    the sequence, or changes a version tag, a creation date or a hash. *)
Theorem run_calls_append_only calls self name0 :
  registered_part <$> records_of self name0
    `prefix_of` registered_part <$> records_of (run_calls calls self) name0.
Proof.
  revert self. induction calls as [|c calls IH]; intros self; [done|].
  simpl. etrans; [|apply IH].
  destruct (run_call_records c self name0)
    as [->|[(r & -> & _)|(who & when & i & vm & Hi & ->)]].
  - done.
  - rewrite fmap_app. by apply prefix_app_r.
  - rewrite (field_after_promote registered_part)
      by (done || apply registered_part_demote).
    done.
Qed.

Lemma run_call_production_count (c : Call) self name0 :
  requested_status c ≠ Some (VStr "production") →
  production_count (records_of self name0) ≤ 1 →
  production_count (records_of (run_call c self) name0) ≤ 1.
Proof.
  intros Hc Hone.
  destruct (run_call_records c self name0)
    as [->|[(r & -> & _ & _ & Hr)|(who & when & i & vm & Hi & ->)]].
  - done.
  - rewrite production_count_app.
    assert (production_count [r] = 0) as ->; [|lia].
    unfold production_count, prod_versions.
    rewrite filter_cons_False; [done|]. intros Hst. by rewrite Hr, Hst in Hc.
  - unfold production_count.
    erewrite prod_versions_promote;
      [done|apply prod_versions_demote|by rewrite list_lookup_fmap, Hi].
Qed.

(** X7. The single-production invariant survives every run of calls in
    which no [register] asks for status ['production']: with at most one
    record in production per name before, there is at most one after,
    whichever calls fail. *)
Theorem run_calls_single_production calls self :
  Forall (λ c, requested_status c ≠ Some (VStr "production")) calls →
  single_production self →
  single_production (run_calls calls self).
Proof.
  intros Hcalls.
  apply (run_calls_invariant (λ _ versions, production_count versions ≤ 1)
           (λ c, requested_status c ≠ Some (VStr "production"))).
  - intros _. unfold production_count. simpl. lia.
  - intros c s name0. apply run_call_production_count.
  - done.
Qed.

Lemma approved_demote vm : approved vm → approved (demote vm).
Proof.
  unfold approved, demote. destruct (decide (status vm = _)) as [Hp|Hp].
  - intros [Hd|(_ & Hwho & Hwhen)]; [congruence|]. right. simpl. eauto.
  - done.
Qed.

Lemma approved_promote who when vm : approved (promote who when vm).
Proof. right. simpl. eauto. Qed.

Lemma run_call_approved (c : Call) self name0 :
  (∀ st, requested_status c = Some st → st = VStr "development") →
  Forall approved (records_of self name0) →
  Forall approved (records_of (run_call c self) name0).
Proof.
  intros Hc Hall.
  destruct (run_call_records c self name0)
    as [->|[(r & -> & _ & _ & Hr)|(who & when & i & vm & Hi & ->)]].
  - done.
  - apply Forall_app. split; [done|]. apply Forall_singleton.
    left. by apply Hc.
  - apply Forall_alter.
    + apply Forall_fmap. eapply Forall_impl; [exact Hall|].
      intros x. apply approved_demote.
    + intros x _ _. apply approved_promote.
Qed.

(** X8. No record reaches production or staging without an approver: when
    no [register] overrides the status, every record is, after every run of
    calls, in development, or in production or staging with [approved_by]
    and [approval_date] set to strings.  In particular the registry itself
    never gives a record the status ['deprecated']. *)
Theorem run_calls_all_approved calls self :
  Forall (λ c, ∀ st, requested_status c = Some st → st = VStr "development")
    calls →
  all_approved self →
  all_approved (run_calls calls self).
Proof.
  intros Hcalls.
  apply (run_calls_invariant (λ _ versions, Forall approved versions)
           (λ c, ∀ st, requested_status c = Some st → st = VStr "development")).
  - intros _. constructor.
  - intros c s name0. apply run_call_approved.
  - done.
Qed.

End Invariants.

Lemma run_calls_well_numbered_witness :
  let self :=
    run_calls Sample.pickle_dumps Sample.digest Sample.history
      (init "filesystem" "models/") in
  well_numbered self ∧
  version <$> records_of self "credit_scoring" = ["v1.0"; "v2.0"] ∧
  version <$> records_of self "fraud" = ["v1.0"].
Proof.
  split_and!.
  - apply run_calls_well_numbered.
    apply (bool_decide_unpack _). vm_compute. exact I.
  - vm_compute. reflexivity.
  - vm_compute. reflexivity.
Defined.

Lemma run_calls_single_production_witness :
  let self :=
    run_calls Sample.pickle_dumps Sample.digest Sample.history
      (init "filesystem" "models/") in
  single_production self ∧
  status <$> records_of self "credit_scoring"
    = [VStr "staging"; VStr "production"].
Proof.
  split.
  - apply run_calls_single_production.
    + apply (bool_decide_unpack _). vm_compute. exact I.
    + apply (bool_decide_unpack _). vm_compute. exact I.
  - vm_compute. reflexivity.
Defined.

Lemma run_calls_all_approved_witness :
  let self :=
    run_calls Sample.pickle_dumps Sample.digest Sample.history
      (init "filesystem" "models/") in
  all_approved self ∧
  approved_by <$> records_of self "credit_scoring" = [VStr "bob"; VStr "bob"].
Proof.
  split.
  - apply run_calls_all_approved.
    + repeat constructor; intros st [= <-]; reflexivity.
    + apply (bool_decide_unpack _). vm_compute. exact I.
  - vm_compute. reflexivity.
Defined.

(** ** Lookup by version tag in a numbered registry *)

Lemma numbered_lookup name0 versions k r :
  numbered name0 versions → versions !! k = Some r →
  version r = version_tag_of (S k).
Proof.
  intros [Hv _] Hk.
  assert (H : (version <$> versions) !! k = Some (version r))
    by (by rewrite list_lookup_fmap, Hk).
  rewrite Hv, list_lookup_fmap in H.
  rewrite lookup_seq_lt in H by (by eapply lookup_lt_Some). simpl in H.
  congruence.
Qed.

Lemma numbered_find_version name0 versions k r :
  numbered name0 versions → versions !! k = Some r →
  find_version (version_tag_of (S k)) versions = Some k.
Proof.
  intros Hnum Hk. apply find_version_Some. exists r. split_and!; [done| |].
  - by eapply numbered_lookup.
  - intros j x Hj Hlt Heq.
    rewrite (numbered_lookup _ _ _ _ Hnum Hj) in Heq.
    apply version_tag_of_inj in Heq. lia.
Qed.

Section NumberedLookup.

Context {Artifact : Type}.
Context (pickle_dumps : Artifact → result bytes).
Context (sha256_hexdigest : bytes → string).
Context (fs : string → string → result Artifact).

Lemma get_model_version_numbered name0 k r model self :
  numbered name0 (records_of self name0) →
  records_of self name0 !! k = Some r →
  backend self = "filesystem" →
  fs name0 (version_tag_of (S k)) = Ok model →
  get_model_version fs name0 (version_tag_of (S k)) self
    = (Ok (Some (r, model)), self).
Proof.
  intros Hnum Hk Hb Hfs. rewrite get_model_version_unfold.
  pose proof (head_versions_matching (version_tag_of (S k))
                (records_of self name0)) as Hhead.
  rewrite (numbered_find_version _ _ _ _ Hnum Hk) in Hhead.
  simpl in Hhead. rewrite Hk in Hhead.
  destruct (versions_matching _ _) as [|first rest]; [done|].
  injection Hhead as ->. by rewrite decide_True, Hfs.
Qed.

(** X9. In a registry whose sequences are numbered, tags identify
    records: the record at position [k] of a name carries the tag of
    [k + 1], and [get_model_version] for that tag returns that record, with
    the model the storage holds for it. *)
Theorem version_lookup_numbered name0 k r model self :
  well_numbered self →
  records_of self name0 !! k = Some r →
  backend self = "filesystem" →
  fs name0 (version_tag_of (S k)) = Ok model →
  version r = version_tag_of (S k) ∧
  get_model_version fs name0 (version_tag_of (S k)) self
    = (Ok (Some (r, model)), self).
Proof.
  intros Hwn Hk Hb Hfs.
  assert (Hnum : numbered name0 (records_of self name0)).
  { unfold records_of in *.
    destruct (models self !! name0) as [l|] eqn:Hl; [|done]. by eapply Hwn. }
  split; [by eapply numbered_lookup|by apply get_model_version_numbered].
Qed.

(** X10. Registration followed by lookup: in a registry whose sequences
    are numbered, the record that a successful [register] returns is the
    record that [get_model_version] then returns for its name and version
    tag. *)
Theorem register_then_get_model_version
    env name0 obj mt who md self r self' model :
  well_numbered self →
  register pickle_dumps sha256_hexdigest env name0 obj mt who md self
    = (Ok r, self') →
  backend self = "filesystem" →
  fs name0 (version r) = Ok model →
  get_model_version fs name0 (version r) self' = (Ok (Some (r, model)), self').
Proof.
  intros Hwn Hcall Hb Hfs.
  assert (Hnum : numbered name0 (records_of self name0)).
  { unfold records_of.
    destruct (models self !! name0) as [l|] eqn:Hl; simpl.
    - by eapply Hwn.
    - split; [done|constructor]. }
  pose proof (run_call_numbered pickle_dumps sha256_hexdigest
    (CallRegister name0
       {| rc_env := env; rc_model := obj; rc_model_type := mt;
          rc_created_by := who; rc_metadata := md |}) self name0 Hnum) as Hnum'.
  simpl in Hnum'. unfold run_register in Hnum'. simpl in Hnum'.
  rewrite Hcall in Hnum'. simpl in Hnum'.
  assert (Hb' : backend self' = "filesystem").
  { rewrite register_unfold in Hcall.
    destruct (pickle_dumps obj); [|done].
    destruct (write_failure env self); [done|]. by injection Hcall as _ <-. }
  apply register_Ok in Hcall as (s & _ & Hr & Happ & _).
  assert (Hk : records_of self' name0 !! length (records_of self name0) = Some r).
  { rewrite Happ, lookup_app_r by done. by rewrite Nat.sub_diag. }
  assert (Hv : version r = version_tag_of (S (length (records_of self name0)))).
  { by eapply numbered_lookup. }
  rewrite Hv in *. by apply get_model_version_numbered.
Qed.

End NumberedLookup.

Lemma version_lookup_numbered_witness :
  version Sample.v2 = "v2.0" ∧
  get_model_version Sample.fs "credit_scoring" "v2.0" Sample.registry
    = (Ok (Some (Sample.v2, "v2.0")), Sample.registry).
Proof.
  apply (version_lookup_numbered Sample.fs "credit_scoring" 1 Sample.v2
           "v2.0" Sample.registry).
  - apply (bool_decide_unpack _). vm_compute. exact I.
  - vm_compute. reflexivity.
  - reflexivity.
  - reflexivity.
Defined.

Lemma register_then_get_model_version_witness :
  let call :=
    register Sample.pickle_dumps Sample.digest
      (Sample.env_at "2024-03-01T09:00:00") "credit_scoring" "C"
      "classifier" "alice" None Sample.registry in
  let r :=
    new_record (Sample.env_at "2024-03-01T09:00:00") "credit_scoring" 3
      "classifier" "alice" None "1" in
  call.1 = Ok r ∧
  get_model_version Sample.fs "credit_scoring" "v3.0" call.2
    = (Ok (Some (r, "v3.0")), call.2).
Proof.
  intros call r. split; [vm_compute; reflexivity|].
  refine (register_then_get_model_version Sample.pickle_dumps Sample.digest
            Sample.fs (Sample.env_at "2024-03-01T09:00:00") "credit_scoring"
            "C" "classifier" "alice" None Sample.registry r call.2 "v3.0"
            _ _ _ _).
  - apply (bool_decide_unpack _). vm_compute. exact I.
  - vm_compute. reflexivity.
  - reflexivity.
  - reflexivity.
Defined.

(** ** Loading the storage directory at start-up *)

(** What the inner loop body does. *)
Lemma load_version_unfold d v self :
  load_version d v self =
  if ve_is_dir v then
    match ve_metadata v with
    | Some (Ok meta) =>
        (Ok tt, set_models (<[d := records_of self d ++ [meta]]> (models self)) self)
    | Some (Raise e) => (Raise e, self)
    | None => (Ok tt, self)
    end
  else (Ok tt, self).
Proof.
  unfold load_version, records_of. run.
  destruct (ve_is_dir v); [|done].
  destruct (ve_metadata v) as [[meta|e]|]; [|done|done]. simpl.
  f_equal. destruct (models self !! d) as [l|] eqn:Hl; simpl.
  - unfold set_models. f_equal. apply map_eq. intros k.
    destruct (decide (k = d)) as [->|Hk].
    + by rewrite lookup_insert_eq, lookup_alter_eq, Hl.
    + by rewrite lookup_insert_ne, lookup_alter_ne.
  - unfold set_models. simpl. f_equal. apply map_eq. intros k.
    destruct (decide (k = d)) as [->|Hk].
    + by rewrite lookup_insert_eq, lookup_alter_eq, lookup_insert_eq.
    + by rewrite lookup_insert_ne, lookup_alter_ne, lookup_insert_ne.
Qed.

(** [self'] is [self] with [metas] appended under [d]. *)
Lemma load_versions d children : ∀ self,
  match for_each (load_version d) children self with
  | (Ok _, self') =>
      Forall readable_version children ∧
      backend self' = backend self ∧ uri self' = uri self ∧
      ∀ n, records_of self' n =
           records_of self n ++
           (if decide (n = d) then readable_records children else [])
  | (Raise _, _) => ¬ Forall readable_version children
  end.
Proof.
  induction children as [|v children IH]; intros self.
  - simpl. run. split_and!; [constructor|done|done|].
    intros n. destruct (decide (n = d)); by rewrite app_nil_r.
  - cbn [for_each]. unfold mbind, M_bind, bind at 1.
    rewrite load_version_unfold. unfold readable_records. rewrite bind_cons.
    fold (readable_records children).
    destruct (ve_is_dir v) eqn:Hdir.
    + destruct (ve_metadata v) as [[meta|e]|] eqn:Hmeta.
      * specialize (IH (set_models (<[d:=records_of self d ++ [meta]]>
                                      (models self)) self)).
        destruct (for_each (load_version d) children _) as [[[]|e] self'].
        -- destruct IH as (Hr & Hb & Hu & Hrec). split_and!; [|done|done|].
           ++ constructor; [|done]. intros _ e. rewrite Hmeta. congruence.
           ++ intros n. rewrite Hrec. unfold records_of at 1. simpl.
              destruct (decide (n = d)) as [->|Hne].
              ** rewrite lookup_insert_eq. simpl. by rewrite <- app_assoc.
              ** by rewrite lookup_insert_ne.
        -- intros H. apply IH. by apply Forall_cons in H as [_ H].
      * intros H. apply Forall_cons in H as [H _]. by apply (H Hdir e).
      * specialize (IH self).
        destruct (for_each (load_version d) children self) as [[[]|e] self'].
        -- destruct IH as (Hr & Hb & Hu & Hrec). split_and!; [|done|done|done].
           constructor; [|done]. intros _ e. rewrite Hmeta. congruence.
        -- intros H. apply IH. by apply Forall_cons in H as [_ H].
    + specialize (IH self).
      destruct (for_each (load_version d) children self) as [[[]|e] self'].
      * destruct IH as (Hr & Hb & Hu & Hrec). split_and!; [|done|done|done].
        constructor; [|done]. intros Hd. congruence.
      * intros H. apply IH. by apply Forall_cons in H as [_ H].
Qed.

Lemma stored_records_cons m entries n :
  stored_records (m :: entries) n =
  (if me_is_dir m then
     if decide (me_name m = n) then
       match me_children m with
       | Ok children => readable_records children
       | Raise _ => []
       end
     else []
   else []) ++ stored_records entries n.
Proof. unfold stored_records. by rewrite bind_cons. Qed.

Lemma load_model_dirs entries : ∀ self,
  match for_each load_model_dir entries self with
  | (Ok _, self') =>
      readable entries ∧
      backend self' = backend self ∧ uri self' = uri self ∧
      ∀ n, records_of self' n = records_of self n ++ stored_records entries n
  | (Raise _, _) => ¬ readable entries
  end.
Proof.
  unfold readable.
  induction entries as [|m entries IH]; intros self.
  - simpl. run. split_and!; [constructor|done|done|].
    intros n. by rewrite app_nil_r.
  - cbn [for_each]. unfold mbind, M_bind, bind at 1.
    unfold load_model_dir at 1.
    destruct (me_is_dir m) eqn:Hdir.
    + unfold mbind, M_bind, bind at 1, lift.
      destruct (me_children m) as [children|e] eqn:Hch.
      * pose proof (load_versions (me_name m) children self) as Hin.
        destruct (for_each (load_version (me_name m)) children self)
          as [[[]|e] self1].
        -- destruct Hin as (Hr1 & Hb1 & Hu1 & Hrec1). specialize (IH self1).
           destruct (for_each load_model_dir entries self1) as [[[]|e] self'].
           ++ destruct IH as (Hr & Hb & Hu & Hrec).
              split_and!; [|congruence|congruence|].
              ** constructor; [|done]. intros _. eauto.
              ** intros n. rewrite stored_records_cons, Hdir, Hch.
                 rewrite Hrec, Hrec1, <- app_assoc.
                 by destruct (decide (n = me_name m)), (decide (me_name m = n));
                   try congruence.
           ++ intros H. apply IH. by apply Forall_cons in H as [_ H].
        -- intros H. apply Forall_cons in H as [H _].
           destruct (H Hdir) as (children' & Hc' & Hr'). congruence.
      * intros H. apply Forall_cons in H as [H _].
        destruct (H Hdir) as (children' & Hc' & _). congruence.
    + run. specialize (IH self).
      destruct (for_each load_model_dir entries self) as [[[]|e] self'].
      * destruct IH as (Hr & Hb & Hu & Hrec). split_and!; [|done|done|].
        -- constructor; [|done]. intros Hd. congruence.
        -- intros n. by rewrite stored_records_cons, Hdir.
      * intros H. apply IH. by apply Forall_cons in H as [_ H].
Qed.

(** The constructor on the filesystem backend, case by case. *)
Lemma init_filesystem disk uri0 :
  match __init__ disk "filesystem" uri0 with
  | Ok self =>
      st_mkdir_outcome disk = None ∧
      backend self = "filesystem" ∧ uri self = uri0 ∧
      ∃ entries, st_listing disk = Ok entries ∧ readable entries ∧
        ∀ n, records_of self n = stored_records entries n
  | Raise _ =>
      st_mkdir_outcome disk ≠ None ∨
      (∃ e, st_listing disk = Raise e) ∨
      (∃ entries, st_listing disk = Ok entries ∧ ¬ readable entries)
  end.
Proof.
  unfold __init__, _load_registry. rewrite decide_True by done. run.
  destruct (st_mkdir_outcome disk) as [e|]; simpl; [by left|].
  destruct (st_listing disk) as [entries|e]; simpl; [|right; left; eauto].
  pose proof (load_model_dirs entries
    {| backend := "filesystem"; uri := uri0; models := ∅ |}) as H.
  destruct (for_each load_model_dir entries _) as [[[]|e] self'].
  - destruct H as (Hr & Hb & Hu & Hrec). split_and!; [done|done|done|].
    exists entries. split_and!; [done|done|]. intros n. by rewrite Hrec.
  - right; right. eauto.
Qed.

(** X11. On the filesystem backend the constructor returns an object
    exactly when the storage directory can be created and listed and every
    model directory and every [metadata.json] in it can be read: one
    unreadable file makes the whole registry fail to start. *)
Theorem init_succeeds_iff_readable disk uri0 :
  is_Ok (__init__ disk "filesystem" uri0) ↔
  st_mkdir_outcome disk = None ∧
  ∃ entries, st_listing disk = Ok entries ∧ readable entries.
Proof.
  pose proof (init_filesystem disk uri0) as H.
  destruct (__init__ disk "filesystem" uri0) as [self|e]; simpl.
  - destruct H as (Hm & _ & _ & entries & Hl & Hr & _). split; [|done].
    intros _. eauto.
  - split; [done|]. intros (Hm & entries & Hl & Hr).
    destruct H as [H|[[e' H]|(entries' & Hl' & H)]]; [done|congruence|].
    assert (entries' = entries) as -> by congruence. done.
Qed.

(** X12. What the constructor loads: the records of a name are the records
    read from the version directories of the model directory of that name,
    in the order in which the directories are listed.  A record is filed
    under the name of its directory, whatever name it carries itself;
    entries that are not directories and version directories without
    [metadata.json] are passed over. *)
Theorem init_loads_stored_records disk uri0 self entries name0 :
  __init__ disk "filesystem" uri0 = Ok self →
  st_listing disk = Ok entries →
  records_of self name0 = stored_records entries name0.
Proof.
  intros Hinit Hl. pose proof (init_filesystem disk uri0) as H.
  rewrite Hinit in H. destruct H as (_ & _ & _ & entries' & Hl' & _ & Hrec).
  assert (entries' = entries) as -> by congruence. apply Hrec.
Qed.

Section Restart.

Context {Artifact : Type}.
Context (pickle_dumps : Artifact → result bytes).
Context (sha256_hexdigest : bytes → string).

(** X13. After a restart the version counter of a name is the number of
    records loaded for it, not the highest tag on disk: the next successful
    [register] returns the tag of that number plus one, even when a stored
    record already carries it. *)
Theorem register_after_restart
    disk uri0 self entries env name0 obj mt who md r self' :
  __init__ disk "filesystem" uri0 = Ok self →
  st_listing disk = Ok entries →
  register pickle_dumps sha256_hexdigest env name0 obj mt who md self
    = (Ok r, self') →
  version r = version_tag_of (length (stored_records entries name0) + 1) ∧
  records_of self' name0 = stored_records entries name0 ++ [r].
Proof.
  intros Hinit Hl Hcall. pose proof (init_filesystem disk uri0) as H.
  rewrite Hinit in H. destruct H as (_ & _ & _ & entries' & Hl' & _ & Hrec).
  assert (entries' = entries) as -> by congruence.
  apply register_Ok in Hcall as (s & _ & -> & Happ & _).
  rewrite Happ, Hrec. done.
Qed.

End Restart.

Lemma init_loads_stored_records_witness :
  __init__ Sample.storage "filesystem" "models/" = Ok Sample.restarted ∧
  records_of Sample.restarted "credit_scoring" = [Sample.v2].
Proof.
  assert (H : __init__ Sample.storage "filesystem" "models/"
              = Ok Sample.restarted) by (vm_compute; reflexivity).
  split; [exact H|].
  rewrite (init_loads_stored_records Sample.storage "models/" Sample.restarted
             _ "credit_scoring" H eq_refl).
  vm_compute. reflexivity.
Defined.

Lemma register_after_restart_witness :
  let call :=
    register Sample.pickle_dumps Sample.digest
      (Sample.env_at "2024-03-01T09:00:00") "credit_scoring" "C"
      "classifier" "alice" None Sample.restarted in
  let r :=
    new_record (Sample.env_at "2024-03-01T09:00:00") "credit_scoring" 2
      "classifier" "alice" None "1" in
  call.1 = Ok r ∧
  version r = "v2.0" ∧
  version <$> records_of call.2 "credit_scoring" = ["v2.0"; "v2.0"].
Proof.
  intros call r.
  assert (Hinit : __init__ Sample.storage "filesystem" "models/"
                  = Ok Sample.restarted) by (vm_compute; reflexivity).
  assert (Hcall : call = (Ok r, call.2)) by (vm_compute; reflexivity).
  destruct (register_after_restart Sample.pickle_dumps Sample.digest
              Sample.storage "models/" Sample.restarted _
              (Sample.env_at "2024-03-01T09:00:00") "credit_scoring" "C"
              "classifier" "alice" None r call.2 Hinit eq_refl Hcall)
    as [Hv Hrec].
  split_and!.
  - vm_compute. reflexivity.
  - exact Hv.
  - rewrite Hrec. vm_compute. reflexivity.
Defined.

(** ** Listing *)

(** A filter that applies only when its argument is given. *)
Lemma elem_of_optional_filter {A B} (P : B → A → Prop)
    `{!∀ d x, Decision (P d x)} (o : option B) (l : list A) x :
  x ∈ match o with Some d => filter (P d) l | None => l end ↔
  x ∈ l ∧ ∀ d, o = Some d → P d x.
Proof.
  destruct o as [d|].
  - rewrite list_elem_of_filter. split.
    + intros [HP Hx]. split; [done|]. by intros d' [= <-].
    + intros [Hx HP]. split; [|done]. by apply HP.
  - split; [|by intros [? _]]. intros Hx. split; [done|]. by intros d [=].
Qed.

Lemma optional_filter_sublist {A B} (P : B → A → Prop)
    `{!∀ d x, Decision (P d x)} (o : option B) (l : list A) :
  match o with Some d => filter (P d) l | None => l end `sublist_of` l.
Proof. destruct o; [apply sublist_filter|done]. Qed.

(** X14. [list_models] returns the records of the names it walks through
    that pass the filters: a record is listed exactly when it is stored
    under one of the keys, its domain equals the [domain] filter when one
    is given, and its status equals the [status] filter when one is given.
    Other filter keys have no effect, [None] and the empty dict filter
    nothing, and filtering keeps the order of the unfiltered listing. *)
Theorem list_models_spec self keys filters m :
  (m ∈ list_models self keys filters ↔
   (∃ k, k ∈ keys ∧ m ∈ records_of self k) ∧
   (∀ d, default ∅ filters !! "domain" = Some d → domain m = VStr d) ∧
   (∀ st, default ∅ filters !! "status" = Some st → status m = VStr st)) ∧
  list_models self keys filters `sublist_of` list_models self keys None.
Proof.
  assert (Hall : m ∈ keys ≫= records_of self ↔
                 ∃ k, k ∈ keys ∧ m ∈ records_of self k).
  { rewrite list_elem_of_bind. split; intros (k & ? & ?); eauto. }
  assert (Hnone : m ∈ keys ≫= records_of self ↔
    (∃ k, k ∈ keys ∧ m ∈ records_of self k) ∧
    (∀ d, (∅ : gmap string string) !! "domain" = Some d → domain m = VStr d) ∧
    (∀ st, (∅ : gmap string string) !! "status" = Some st → status m = VStr st)).
  { rewrite Hall. split; [|by intros [? _]].
    intros H. split_and!; [done|..]; intros x Hx; by rewrite lookup_empty in Hx. }
  unfold list_models. destruct filters as [f|]; simpl; [|done].
  destruct (decide (f = ∅)) as [->|Hf]; [done|]. split.
  - rewrite (elem_of_optional_filter (λ st m, status m = VStr st)).
    rewrite (elem_of_optional_filter (λ d m, domain m = VStr d)).
    rewrite Hall. tauto.
  - etrans; [apply (optional_filter_sublist (λ st m, status m = VStr st))|].
    apply (optional_filter_sublist (λ d m, domain m = VStr d)).
Qed.

Lemma filter_bind_length_le {A B} (P : B → Prop) `{!∀ x, Decision (P x)}
    (f : A → list B) (l : list A) :
  (∀ x, length (filter P (f x)) ≤ 1) →
  length (filter P (l ≫= f)) ≤ length l.
Proof.
  intros Hle. induction l as [|x l IH]; [done|].
  rewrite bind_cons, filter_app, length_app. simpl. specialize (Hle x). lia.
Qed.

(** X15. While at most one record per name is in production, listing with
    the filter [status = 'production'] returns at most as many records as
    there are names. *)
Theorem list_production_models_bound self keys :
  single_production self →
  length (list_models self keys (Some {[ "status" := "production" ]}))
    ≤ length keys.
Proof.
  intros Hinv. unfold list_models.
  rewrite decide_False by (apply insert_non_empty).
  assert (({[ "status" := "production" ]} : gmap string string) !! "domain"
          = None) as -> by (vm_compute; reflexivity).
  rewrite lookup_singleton_eq.
  apply filter_bind_length_le. intros k. unfold records_of.
  destruct (models self !! k) as [l|] eqn:Hl; simpl; [|lia].
  by apply (Hinv k l).
Qed.

Lemma list_production_models_bound_witness :
  single_production Sample.registry ∧
  length (list_models Sample.registry ["credit_scoring"]
            (Some {[ "status" := "production" ]})) ≤ 1.
Proof.
  assert (H : single_production Sample.registry)
    by (apply (bool_decide_unpack _); vm_compute; exact I).
  split; [exact H|].
  apply (list_production_models_bound Sample.registry ["credit_scoring"] H).
Defined.

(** ** The audit trail is append-only *)

Lemma log_all_appends_aux calls : ∀ self,
  Audit.logs (Audit.log_all calls self)
    = Audit.logs self ++ (Audit.entry_of <$> calls) ∧
  Audit.storage (Audit.log_all calls self) = Audit.storage self ∧
  Audit.path (Audit.log_all calls self) = Audit.path self.
Proof.
  induction calls as [|c calls IH]; intros self.
  - simpl. by rewrite app_nil_r.
  - change (Audit.log_all (c :: calls) self)
      with (Audit.log_all calls (Audit.run_log c self).2).
    destruct (IH (Audit.run_log c self).2) as (-> & -> & ->).
    unfold Audit.run_log. rewrite log_action_unfold. simpl.
    by rewrite <- app_assoc.
Qed.

(** X16. Every call of [log_action] appends exactly one entry, whether the
    durable append goes through or not: after a run of calls the in-memory
    log is the log before, followed by the entries of the calls in call
    order.  No earlier entry is changed, moved or dropped, and the settings
    of the trail stay as they were. *)
Theorem log_all_appends calls self :
  Audit.logs (Audit.log_all calls self)
    = Audit.logs self ++ (Audit.entry_of <$> calls) ∧
  Audit.storage (Audit.log_all calls self) = Audit.storage self ∧
  Audit.path (Audit.log_all calls self) = Audit.path self.
Proof. apply log_all_appends_aux. Qed.

(** X17. [get_logs] returns the entries of the in-memory log that match
    the filters, in log order.  A filter that is [None] or the empty string
    is not applied, and [days_back] has no effect: an entry is returned
    whatever its timestamp. *)
Theorem get_logs_spec self mid act days e :
  (e ∈ Audit.get_logs self mid act days ↔
   e ∈ Audit.logs self ∧
   (∀ m, mid = Some m → m ≠ "" → Audit.model_id e = m) ∧
   (∀ a, act = Some a → a ≠ "" → Audit.action e = a)) ∧
  Audit.get_logs self mid act days `sublist_of` Audit.logs self.
Proof.
  assert (Hgiven : ∀ (x : option string) s,
    Audit.given x = Some s ↔ x = Some s ∧ s ≠ "").
  { intros [x|] s; simpl; [|by split; [|intros [? _]]].
    destruct (decide (x = "")) as [->|Hx]; split.
    - done.
    - intros [[= <-] H]. done.
    - intros [= <-]. done.
    - by intros [[= <-] _]. }
  unfold Audit.get_logs. split.
  - rewrite (elem_of_optional_filter (λ a l, Audit.action l = a)).
    rewrite (elem_of_optional_filter (λ m l, Audit.model_id l = m)).
    split.
    + intros [[Hin Hm] Ha]. split_and!; [done| |].
      * intros m Hmid Hne. apply Hm. by apply Hgiven.
      * intros a Hact Hne. apply Ha. by apply Hgiven.
    + intros (Hin & Hm & Ha). split_and!; [done| |].
      * intros m [Hmid Hne]%Hgiven. by apply Hm.
      * intros a [Hact Hne]%Hgiven. by apply Ha.
  - etrans; [apply (optional_filter_sublist (λ a l, Audit.action l = a))|].
    apply (optional_filter_sublist (λ m l, Audit.model_id l = m)).
Qed.

(** X18. The answer of [get_logs] only grows: after further [log_action]
    calls, a query returns what it returned before, followed by the
    matching entries of the new calls in call order. *)
Theorem get_logs_grows calls self mid act days :
  Audit.get_logs (Audit.log_all calls self) mid act days
  = Audit.get_logs self mid act days ++
    Audit.get_logs (Audit.set_logs (Audit.entry_of <$> calls) self) mid act days.
Proof.
  destruct (log_all_appends_aux calls self) as (H & _ & _).
  unfold Audit.get_logs. simpl. rewrite H.
  destruct (Audit.given mid), (Audit.given act); by rewrite ?filter_app.
Qed.

(** ** Date validation *)

Lemma any_false_iff (marks : list bool) :
  Ingest.any marks = false ↔ Forall (λ b, b = false) marks.
Proof.
  unfold Ingest.any. induction marks as [|b marks IH]; simpl.
  - split; [constructor|done].
  - rewrite Forall_cons, <- IH. unfold id. destruct b; simpl.
    + split; [done|by intros [? _]].
    + split; [done|by intros [_ ?]].
Qed.

Lemma duplicated_from_none seen col :
  Ingest.any (Ingest.duplicated_from seen col) = false ↔
  NoDup col ∧ Forall (λ d, d ∉ seen) col.
Proof.
  rewrite any_false_iff. revert seen.
  induction col as [|d col IH]; intros seen; simpl.
  - split; [intros _; split; constructor|constructor].
  - rewrite Forall_cons, IH, NoDup_cons, Forall_cons, bool_decide_eq_false.
    split.
    + intros (Hd & Hnd & Hall). split_and!; [|done|done|].
      * intros Hin. eapply Forall_forall in Hall; [|done].
        apply Hall. by left.
      * eapply Forall_impl; [exact Hall|]. intros x Hx Hin. apply Hx. by right.
    + intros ((Hd & Hnd) & Hds & Hall). split_and!; [done|done|].
      apply Forall_forall. intros x Hx [->|Hin]%elem_of_cons; [done|].
      by eapply Forall_forall in Hall.
Qed.

Lemma strictly_increasing_iff col :
  Ingest.is_monotonic_increasing col = true ∧ NoDup col ↔
  StronglySorted Z.lt col.
Proof.
  induction col as [|d col IH].
  - split; [intros _; constructor|]. intros _. split; [done|constructor].
  - destruct col as [|d' col].
    + split; [intros _; repeat constructor|].
      intros _. split; [done|]. apply NoDup_singleton.
    + cbn [Ingest.is_monotonic_increasing].
      rewrite andb_true_iff, bool_decide_eq_true. split.
      * intros [[Hle Hmono] Hnd]. apply NoDup_cons in Hnd as [Hd Hnd].
        assert (Hss : StronglySorted Z.lt (d' :: col)) by (by apply IH).
        constructor; [done|].
        assert (d ≠ d') by (intros ->; apply Hd; by left).
        apply StronglySorted_inv in Hss as [_ Hall].
        constructor; [lia|].
        eapply Forall_impl; [exact Hall|]. intros x Hx. simpl in Hx. lia.
      * intros Hss. apply StronglySorted_inv in Hss as [Hss Hall].
        apply IH in Hss as [Hmono Hnd]. split_and!; [|done|].
        -- apply Forall_cons in Hall as [Hlt _]. lia.
        -- apply NoDup_cons. split; [|done]. intros Hin.
           eapply Forall_forall in Hall; [|done]. lia.
Qed.

Lemma no_future_iff (today : Z) col :
  Ingest.any ((λ d, bool_decide (today < d)%Z) <$> col) = false ↔
  Forall (λ d, (d ≤ today)%Z) col.
Proof.
  rewrite any_false_iff, Forall_fmap. apply Forall_iff. intros d. simpl.
  rewrite bool_decide_eq_false. lia.
Qed.

(** X19. [validate_dates] accepts a date column exactly when its dates are
    strictly increasing and none lies after today; it then reports no
    issue, and it never reports an issue for a column it accepts.  The
    empty column is accepted. *)
Theorem validate_dates_accepts today col :
  ((Ingest.validate_dates today col).1 = true ↔
   StronglySorted Z.lt col ∧ Forall (λ d, (d ≤ today)%Z) col) ∧
  ((Ingest.validate_dates today col).1 = true ↔
   (Ingest.validate_dates today col).2 = []).
Proof.
  pose proof (strictly_increasing_iff col) as Hstrict.
  pose proof (no_future_iff today col) as Hfut.
  assert (Hnd : Ingest.any (Ingest.duplicated col) = false ↔ NoDup col).
  { unfold Ingest.duplicated. rewrite duplicated_from_none.
    split; [by intros [? _]|]. intros H. split; [done|].
    apply Forall_forall. intros x _ Hin. by apply not_elem_of_nil in Hin. }
  unfold Ingest.validate_dates.
  destruct (Ingest.any (Ingest.duplicated col)) eqn:Ha;
    destruct (Ingest.is_monotonic_increasing col) eqn:Hm;
    destruct (Ingest.any ((λ d, bool_decide (today < d)%Z) <$> col)) eqn:Hf;
    simpl.
  all: split; [|by split].
  all: split; [intros Hv; try done | intros [Hss Hall]].
  all: try (apply Hstrict in Hss as [Hmono Hnod]; apply Hfut in Hall;
            apply Hnd in Hnod; done).
  split; [apply Hstrict; split; [done|by apply Hnd] | by apply Hfut].
Qed.

Lemma sum_duplicated_from seen col :
  Ingest.sum (Ingest.duplicated_from seen col) +
    size (list_to_set col ∖ list_to_set seen : gset Z)
  = length col.
Proof.
  revert seen. induction col as [|d col IH]; intros seen.
  - simpl. replace (∅ ∖ list_to_set seen : gset Z) with (∅ : gset Z).
    + by rewrite size_empty.
    + apply set_eq. intros x. rewrite elem_of_difference.
      split; [intros H|intros [H _]]; by apply not_elem_of_empty in H.
  - cbn [Ingest.duplicated_from length]. specialize (IH (d :: seen)).
    unfold Ingest.sum in *. rewrite filter_cons.
    destruct (decide (d ∈ seen)) as [Hin|Hnin].
    + rewrite bool_decide_eq_true_2 by done. rewrite decide_True by done.
      cbn [length].
      replace (list_to_set (d :: col) ∖ list_to_set seen : gset Z)
        with (list_to_set col ∖ list_to_set (d :: seen) : gset Z); [lia|].
      apply set_eq. intros x.
      rewrite !elem_of_difference, !elem_of_list_to_set, !elem_of_cons.
      split.
      * intros [Hx Hn]. split; [by right|]. intros Hs. apply Hn. by right.
      * intros [[->|Hx] Hn]; [done|]. split; [done|].
        intros [->|Hs]; [|done]. done.
    + rewrite bool_decide_eq_false_2 by done. rewrite decide_False by done.
      replace (list_to_set (d :: col) ∖ list_to_set seen : gset Z)
        with ({[d]} ∪ (list_to_set col ∖ list_to_set (d :: seen)) : gset Z).
      * rewrite size_union, size_singleton; [lia|].
        intros x Hx1 Hx2. apply elem_of_singleton in Hx1 as ->.
        apply elem_of_difference in Hx2 as [_ Hx2]. apply Hx2.
        apply elem_of_list_to_set. by left.
      * apply set_eq. intros x.
        rewrite elem_of_union, elem_of_singleton, !elem_of_difference,
          !elem_of_list_to_set, !elem_of_cons.
        split.
        -- intros [->|[Hx Hn]].
           ++ split; [by left|done].
           ++ split; [by right|]. intros Hs. apply Hn. by right.
        -- intros [[->|Hx] Hn]; [by left|].
           destruct (decide (x = d)) as [->|Hne]; [by left|]. right.
           split; [done|]. by intros [->|Hs].
Qed.

(** X20. When the column repeats a date, the first issue that
    [validate_dates] reports gives the number of repeats: the number of
    rows minus the number of distinct dates. *)
Theorem validate_dates_counts_repeats today col :
  ¬ NoDup col →
  (Ingest.validate_dates today col).1 = false ∧
  head (Ingest.validate_dates today col).2 =
    Some (pretty (length col - size (list_to_set col : gset Z))
          +:+ " duplicate dates").
Proof.
  intros Hdup.
  assert (Ha : Ingest.any (Ingest.duplicated col) = true).
  { destruct (Ingest.any (Ingest.duplicated col)) eqn:Ha; [done|].
    apply duplicated_from_none in Ha as [Hnd _]. done. }
  pose proof (sum_duplicated_from [] col) as Hsum.
  fold (Ingest.duplicated col) in Hsum.
  replace (list_to_set col ∖ list_to_set [] : gset Z)
    with (list_to_set col : gset Z) in Hsum
    by (simpl; by rewrite difference_empty_L).
  unfold Ingest.validate_dates. rewrite Ha.
  replace (length col - size (list_to_set col : gset Z))
    with (Ingest.sum (Ingest.duplicated col)) by lia.
  destruct (Ingest.is_monotonic_increasing col);
    destruct (Ingest.any (_ <$> col)); done.
Qed.

Lemma validate_dates_counts_repeats_witness :
  (Ingest.validate_dates 20 [3; 5; 5; 9; 5]%Z).1 = false ∧
  head (Ingest.validate_dates 20 [3; 5; 5; 9; 5]%Z).2
    = Some "2 duplicate dates".
Proof.
  refine (validate_dates_counts_repeats 20 [3; 5; 5; 9; 5]%Z _).
  intros Hnd. apply NoDup_cons in Hnd as [_ Hnd].
  apply NoDup_cons in Hnd as [Hin _]. apply Hin. by left.
Defined.
